(** * TurnipBeams: the command tree, its dispatch and its introspection

  A shallow embedding of the command engine ([command.ts]), of the
  lookup helpers it calls ([lib.ts]) and of the default metadata of the
  message handler ([handler.ts]), followed by the properties of the
  engine that the design document states.

  Conventions.  A JavaScript value that may be [undefined] or [null]
  is a [JSOpt]; a computation that may throw is a [Completion]; the
  arrays and objects that the code mutates ([menu.args], the metadata
  accumulator, the token array given to [resolveInfo], the name of a
  [NamedCommand]) are threaded explicitly.  Strings are byte strings:
  the patterns of the engine only ever accept ASCII characters. *)

From Stdlib Require Import ZArith Ascii String List Bool Lia DecimalString.
From stdpp Require Import base option list strings gmap.

Local Open Scope string_scope.
Local Open Scope Z_scope.
Local Set Warnings "-register-all".

(** ** JavaScript values and completions *)

Module JS.

(** [T | undefined | null]. *)
Inductive JSOpt (A : Type) : Type :=
| Undefined
| Null
| Val (a : A).
Arguments Undefined {A}.
Arguments Null {A}.
Arguments Val {A} a.

(** [x === null] *)
Definition is_null {A} (x : JSOpt A) : bool :=
  match x with Null => true | _ => false end.

(** Truthiness of an object-or-absent value: [!x] is [negb (truthy x)]. *)
Definition truthy {A} (x : JSOpt A) : bool :=
  match x with Val _ => true | _ => false end.

(** What a [catch] clause receives: [error.stack ?? error]. *)
Record Thrown : Type := mkThrown {
  stack : option string;
  display : string
}.

Definition TypeError (msg : string) : Thrown :=
  {| stack := Some ("TypeError: " ++ msg); display := "TypeError: " ++ msg |}.

Definition Error (msg : string) : Thrown :=
  {| stack := Some ("Error: " ++ msg); display := "Error: " ++ msg |}.

(** The result of running a piece of code: a value, or a failure that
    travels up to the nearest [catch]. *)
Inductive Completion (A : Type) : Type :=
| Return (a : A)
| Throw (e : Thrown).
Arguments Return {A} a.
Arguments Throw {A} e.

Definition bind {A B} (c : Completion A) (k : A -> Completion B) : Completion B :=
  match c with
  | Return a => k a
  | Throw e => Throw e
  end.

(** Truthiness of a string: only the empty string is falsy. *)
Definition truthy_string (s : string) : bool :=
  match s with EmptyString => false | _ => true end.

(** The double quote, which a template literal writes as is. *)
Definition dquote : string := String (ascii_of_nat 34) EmptyString.

(** [Array.prototype.join] on an array of strings. *)
Definition join (sep : string) (l : list string) : string := String.concat sep l.

(** *** [Map<string, V>]: insertion-ordered, [set] keeps the place of a key *)

Definition Map (V : Type) : Type := list (string * V).

Fixpoint get {V} (m : Map V) (k : string) : option V :=
  match m with
  | [] => None
  | (k', v) :: m' => if String.eqb k' k then Some v else get m' k
  end.

Definition has {V} (m : Map V) (k : string) : bool :=
  match get m k with Some _ => true | None => false end.

Fixpoint set {V} (m : Map V) (k : string) (v : V) : Map V :=
  match m with
  | [] => [(k, v)]
  | (k', v') :: m' =>
      if String.eqb k' k then (k', v) :: m' else (k', v') :: set m' k v
  end.

(** [Array.prototype.includes] on an array of strings. *)
Definition includes (l : list string) (x : string) : bool :=
  existsb (String.eqb x) l.

End JS.

Import JS.

(** ** The regular expressions of [patterns] *)

Module Patterns.

(** [\w] without the unicode flag: [A-Za-z0-9_]. *)
Definition is_word (c : ascii) : bool :=
  let n := nat_of_ascii c in
  ((48 <=? n) && (n <=? 57) || (65 <=? n) && (n <=? 90)
   || (97 <=? n) && (n <=? 122) || (n =? 95))%nat.

Fixpoint all_word (s : string) : bool :=
  match s with
  | EmptyString => true
  | String c s' => is_word c && all_word s'
  end.

(** The longest prefix of word characters and what follows it: the
    only way a greedy [\w{n,}] can match before a non-word character
    or the end of the input. *)
Fixpoint span_word (s : string) : string * string :=
  match s with
  | EmptyString => (EmptyString, EmptyString)
  | String c s' =>
      if is_word c
      then let '(w, r) := span_word s' in (String c w, r)
      else (EmptyString, s)
  end.

Fixpoint strip_prefix (p s : string) : option string :=
  match p, s with
  | EmptyString, _ => Some s
  | String a p', String b s' => if Ascii.eqb a b then strip_prefix p' s' else None
  | String _ _, EmptyString => None
  end.

(** An optional literal [(?:p)?]: taken when it is there. *)
Definition strip_optional (p s : string) : string :=
  match strip_prefix p s with Some r => r | None => s end.

Definition at_least (n : nat) (s : string) : bool := (n <=? String.length s)%nat.

(** [/^<#(\w{26,})>$/]: the capture group of a match. *)
Definition channel (s : string) : option string :=
  match strip_prefix "<#" s with
  | Some r =>
      let '(w, r') := span_word r in
      if at_least 26 w && String.eqb r' ">" then Some w else None
  | None => None
  end.

(** [/^<@?(\w{26,})>$/] *)
Definition user (s : string) : option string :=
  match strip_prefix "<" s with
  | Some r =>
      let '(w, r') := span_word (strip_optional "@" r) in
      if at_least 26 w && String.eqb r' ">" then Some w else None
  | None => None
  end.

(** [/^(\w{26,})$/] *)
Definition id (s : string) : option string :=
  if all_word s && at_least 26 s then Some s else None.

(** The second group of [messageLink]:
    [(\w{26,}|channel\/\w{26,}\/\w{7,})$]. *)
Definition messageLink_tail (s : string) : bool :=
  (all_word s && at_least 26 s)
  || match strip_prefix "channel/" s with
     | Some r =>
         let '(w, r') := span_word r in
         at_least 26 w
         && match strip_prefix "/" r' with
            | Some t => all_word t && at_least 7 t
            | None => false
            end
     | None => false
     end.

(** [/^https?:\/\/(?:nightly\.|app\.)?revolt\.chat\/(?:server|channel)\/(\w{26,})\/(\w{26,}|channel\/\w{26,}\/\w{7,})$/]:
    the two capture groups of a match. *)
Definition messageLink (s : string) : option (string * string) :=
  r0 ← strip_prefix "http" s;
  r1 ← strip_prefix "://" (strip_optional "s" r0);
  r2 ← strip_prefix "revolt.chat/"
         (match strip_prefix "nightly." r1 with
          | Some r => r
          | None => strip_optional "app." r1
          end);
  r3 ← match strip_prefix "server" r2 with
       | Some r => Some r
       | None => strip_prefix "channel" r2
       end;
  r4 ← strip_prefix "/" r3;
  let '(w, r5) := span_word r4 in
  r6 ← strip_prefix "/" r5;
  if at_least 26 w && messageLink_tail r6 then Some (w, r6) else None.

Definition test {A} (m : option A) : bool :=
  match m with Some _ => true | None => false end.

End Patterns.

(** ** [Number(string)] *)

Module Num.

(** The numbers [Number] can return.  A finite value is kept as the
    exact decimal [mantissa * 10 ^ exp10] that the literal denotes (the
    rounding to a double, and the sign of a zero, play no part in the
    engine, which only asks whether the result is [NaN]). *)
Inductive Number : Type :=
| NaN
| Infinity (negative : bool)
| Finite (mantissa : Z) (exp10 : Z).

(** [Number.isNaN] *)
Definition isNaN (n : Number) : bool :=
  match n with NaN => true | _ => false end.

(** The ASCII members of [StrWhiteSpaceChar]: TAB, LF, VT, FF, CR, SP. *)
Definition is_space (c : ascii) : bool :=
  let n := nat_of_ascii c in
  ((9 <=? n) && (n <=? 13) || (n =? 32))%nat.

Fixpoint trim_left (s : string) : string :=
  match s with
  | String c s' => if is_space c then trim_left s' else s
  | EmptyString => EmptyString
  end.

Fixpoint rev_string (acc s : string) : string :=
  match s with
  | EmptyString => acc
  | String c s' => rev_string (String c acc) s'
  end.

Definition trim (s : string) : string :=
  rev_string EmptyString (trim_left (rev_string EmptyString (trim_left s))).

(** The value of a digit in a radix up to 16, if it is one. *)
Definition digit_value (radix : Z) (c : ascii) : option Z :=
  let n := Z.of_nat (nat_of_ascii c) in
  let v :=
    if (48 <=? n) && (n <=? 57) then Some (n - 48)
    else if (97 <=? n) && (n <=? 102) then Some (n - 87)
    else if (65 <=? n) && (n <=? 70) then Some (n - 55)
    else None in
  match v with
  | Some d => if d <? radix then Some d else None
  | None => None
  end.

(** The longest run of digits: its value, its length, what follows. *)
Fixpoint span_digits (radix : Z) (acc : Z) (len : nat) (s : string)
  : Z * nat * string :=
  match s with
  | EmptyString => (acc, len, EmptyString)
  | String c s' =>
      match digit_value radix c with
      | Some d => span_digits radix (radix * acc + d) (S len) s'
      | None => (acc, len, s)
      end
  end.

(** [0x..], [0o..], [0b..] after the prefix: digits up to the end. *)
Definition radix_literal (radix : Z) (s : string) : Number :=
  match span_digits radix 0 0 s with
  | (v, S _, EmptyString) => Finite v 0
  | _ => NaN
  end.

(** [ExponentPart_opt] up to the end of the input. *)
Definition exponent (s : string) : option Z :=
  match s with
  | EmptyString => Some 0
  | String c s' =>
      if Ascii.eqb c "e" || Ascii.eqb c "E" then
        let '(neg, s'') :=
          match s' with
          | String "+" t => (false, t)
          | String "-" t => (true, t)
          | _ => (false, s')
          end in
        match span_digits 10 0 0 s'' with
        | (v, S _, EmptyString) => Some (if neg then - v else v)
        | _ => None
        end
      else None
  end.

(** [StrUnsignedDecimalLiteral] other than [Infinity]. *)
Definition unsigned_decimal (s : string) : option (Z * Z) :=
  let '(ip, ilen, r) := span_digits 10 0 0 s in
  match r with
  | String "." r' =>
      let '(m, flen, r'') := span_digits 10 ip 0 r' in
      match ilen, flen with
      | O, O => None
      | _, _ =>
          match exponent r'' with
          | Some e => Some (m, e - Z.of_nat flen)
          | None => None
          end
      end
  | _ =>
      match ilen with
      | O => None
      | S _ =>
          match exponent r with
          | Some e => Some (ip, e)
          | None => None
          end
      end
  end.

Definition signed_decimal (negative : bool) (s : string) : Number :=
  if String.eqb s "Infinity" then Infinity negative
  else match unsigned_decimal s with
       | Some (m, e) => Finite (if negative then - m else m) e
       | None => NaN
       end.

(** [StringToNumber]: white space is trimmed, the empty string is [0],
    anything outside [StrNumericLiteral] is [NaN]. *)
Definition of_string (s : string) : Number :=
  match trim s with
  | EmptyString => Finite 0 0
  | String "0" (String "x" r) | String "0" (String "X" r) => radix_literal 16 r
  | String "0" (String "o" r) | String "0" (String "O" r) => radix_literal 8 r
  | String "0" (String "b" r) | String "0" (String "B" r) => radix_literal 2 r
  | String "+" r => signed_decimal false r
  | String "-" r => signed_decimal true r
  | t => signed_decimal false t
  end.

End Num.

Import Num.

(** ** The platform objects the engine touches *)

(** [Channel['channel_type']] *)
Inductive CHANNEL_TYPE : Type :=
| SavedMessages
| DirectMessage
| Group
| TextChannel
| VoiceChannel.

Definition CHANNEL_TYPE_eqb (a b : CHANNEL_TYPE) : bool :=
match a, b with
| SavedMessages, SavedMessages
| DirectMessage, DirectMessage
| Group, Group
| TextChannel, TextChannel
| VoiceChannel, VoiceChannel => true
| _, _ => false
end.

Record Role : Type := { role_name : string }.
Record Channel : Type := { channel_id : string; channel_type : CHANNEL_TYPE }.
Record User : Type := { user_id : string }.
Record Member : Type := { member_id : string }.
Record Message : Type := { message_id : string }.

(** A server and its role table, which the platform leaves [null] when
    the server has no role. *)
Record Server : Type := { server_id : string; roles : JSOpt (JS.Map Role) }.

(** [type ID] *)
Inductive ID : Type :=
| id_channel
| id_role
| id_emote
| id_message
| id_user
| id_server.

Definition ID_name (i : ID) : string :=
match i with
| id_channel => "channel"
| id_role => "role"
| id_emote => "emote"
| id_message => "message"
| id_user => "user"
| id_server => "server"
end.

(** What [menu.args] holds: the typed values resolved during the descent. *)
Inductive Arg : Type :=
| ArgChannel (c : Channel)
| ArgRole (r : Role)
| ArgMessage (m : Message)
| ArgUser (u : User)
| ArgServer (s : Server)
| ArgNumber (n : Number)
| ArgString (s : string).

(** [interface CommandMenu].  The [client] and the [message] are only
    handed on to the handlers; [send] answers with the failure of the
    promise it returns, if it rejects. *)
Module CommandMenu.
Record t : Type := mk {
  args : list Arg;
  channel : JSOpt Channel;
  server : JSOpt Server;
  author : JSOpt User;
  member : JSOpt Member;
  send : string -> option Thrown
}.

(** [menu.args.push(...)]: the array is shared, the menu is not copied. *)
Definition push (xs : list Arg) (menu : t) : t :=
  {| args := args menu ++ xs; channel := channel menu; server := server menu;
     author := author menu; member := member menu; send := send menu |}.
End CommandMenu.

(** What running a handler does that the engine can see: the messages it
    sends and the failure it throws, if any. *)
Record Effects : Type := {
  says : list string;
  raises : option Thrown
}.

(** ** The collaborators *)

(** The platform client, the permission table, the prefix resolver and
    the template substitution, none of which the engine defines. *)
Class Platform : Type := {
  (** [client.channels.fetch(id)], [None] when it rejects *)
  channels_fetch : string -> option Channel;
  (** [client.users.fetch(id)] *)
  users_fetch : string -> option User;
  (** [client.servers.get(id)] *)
  servers_get : string -> option Server;
  (** [channel.fetchMessage(id)] *)
  fetchMessage : Channel -> string -> option Message;
  (** the string a template literal makes of a channel *)
  Channel_toString : Channel -> string;
  (** [user.toString()] *)
  User_toString : User -> string;
  (** [getPrefix(server)] *)
  getPrefix : JSOpt Server -> string;
  (** [parseVars(template, {author, prefix, command}, fallback)] *)
  parseVars : string -> string -> string -> string -> string -> string;
  (** [hasPermission(user, member, level)] *)
  hasPermission : JSOpt User -> JSOpt Member -> Z -> bool;
  (** [getPermissionLevel(user, member)] *)
  getPermissionLevel : JSOpt User -> JSOpt Member -> Z;
  (** [getPermissionName(level)] *)
  getPermissionName : Z -> string
}.

(** ** The command tree *)

(** [abstract class BaseCommand] *)
Module BaseCommand.
Record t : Type := mk {
  description : string;
  usage : string;
  (** [-1] inherits *)
  permission : Z;
  (** [null] inherits *)
  nsfw : option bool;
  (** [null] inherits *)
  channelType : option CHANNEL_TYPE
}.
End BaseCommand.

(** The [run] field of a [Command]: a template or a handler. *)
Inductive Run : Type :=
| RunString (template : string)
| RunHandler (handler : CommandMenu.t -> Effects).

(** The [run] field of a [RestCommand]: its handler also gets [combined]. *)
Inductive RestRun : Type :=
| RestString (template : string)
| RestHandler (handler : string -> CommandMenu.t -> Effects).

(** [class RestCommand extends BaseCommand] *)
Record RestCommand : Type := mkRest {
  rest_base : BaseCommand.t;
  rest_run : RestRun
}.

(** What [class NamedCommand extends Command] adds to a command. *)
Record NamedPart : Type := mkNamed {
  aliases : list string;
  originalCommandName : option string
}.

(** [class Command extends BaseCommand].  An object of the subclass
    [NamedCommand] is a command with a [named] part; the [any] field is a
    [Command], a [RestCommand] or [null]. *)
Inductive Command : Type :=
| mkCommand
    (base : BaseCommand.t)
    (run : Run)
    (subcommands : JS.Map Command)
    (channel role emote message user guild id : option Command)
    (idType : option ID)
    (number : option Command)
    (any : AnyCommand)
    (named : option NamedPart)
with AnyCommand : Type :=
| AnyNull
| AnyCommandOf (c : Command)
| AnyRest (r : RestCommand).

Module Cmd.
Definition base (c : Command) := let 'mkCommand b _ _ _ _ _ _ _ _ _ _ _ _ _ := c in b.
Definition run (c : Command) := let 'mkCommand _ r _ _ _ _ _ _ _ _ _ _ _ _ := c in r.
Definition subcommands (c : Command) := let 'mkCommand _ _ s _ _ _ _ _ _ _ _ _ _ _ := c in s.
Definition channel (c : Command) := let 'mkCommand _ _ _ x _ _ _ _ _ _ _ _ _ _ := c in x.
Definition role (c : Command) := let 'mkCommand _ _ _ _ x _ _ _ _ _ _ _ _ _ := c in x.
Definition emote (c : Command) := let 'mkCommand _ _ _ _ _ x _ _ _ _ _ _ _ _ := c in x.
Definition message (c : Command) := let 'mkCommand _ _ _ _ _ _ x _ _ _ _ _ _ _ := c in x.
Definition user (c : Command) := let 'mkCommand _ _ _ _ _ _ _ x _ _ _ _ _ _ := c in x.
Definition guild (c : Command) := let 'mkCommand _ _ _ _ _ _ _ _ x _ _ _ _ _ := c in x.
Definition id (c : Command) := let 'mkCommand _ _ _ _ _ _ _ _ _ x _ _ _ _ := c in x.
Definition idType (c : Command) := let 'mkCommand _ _ _ _ _ _ _ _ _ _ x _ _ _ := c in x.
Definition number (c : Command) := let 'mkCommand _ _ _ _ _ _ _ _ _ _ _ x _ _ := c in x.
Definition any (c : Command) := let 'mkCommand _ _ _ _ _ _ _ _ _ _ _ _ x _ := c in x.
Definition named (c : Command) := let 'mkCommand _ _ _ _ _ _ _ _ _ _ _ _ _ x := c in x.

Definition with_named (n : option NamedPart) (c : Command) : Command :=
  let 'mkCommand b r s ch ro em me us gu i it nu an _ := c in
  mkCommand b r s ch ro em me us gu i it nu an n.

(** [get name()]; a command that is no [NamedCommand] has no such
    property. *)
Definition name (c : Command) : Completion (JSOpt string) :=
  match named c with
  | Some n =>
      match originalCommandName n with
      | None => Throw (Error "originalCommandName must be set before accessing it!")
      | Some s => Return (Val s)
      end
  | None => Return Undefined
  end.

(** [set name(value)]: the named part after the assignment. *)
Definition set_name (n : NamedPart) (value : string) : Completion NamedPart :=
  match originalCommandName n with
  | Some _ =>
      Throw (Error ("originalCommandName cannot be set twice! Attempted to set the value to "
                    ++ dquote ++ value ++ dquote ++ "."))
  | None => Return (mkNamed (aliases n) (Some value))
  end.

(** [isNameSet()] *)
Definition isNameSet (c : Command) : bool :=
  match named c with
  | Some n => match originalCommandName n with Some _ => true | None => false end
  | None => false
  end.
End Cmd.

(** ** [lib.ts]: lookups that answer with a value or a not-found message *)

Section Lib.
Context `{P : Platform}.

Definition getGuildByID (id : string) : Server + string :=
  match servers_get id with
  | Some guild => inl guild
  | None => inr ("No guild found by the ID of `" ++ id ++ "`!")
  end.

Definition getChannelByID (id : string) : Channel + string :=
  match channels_fetch id with
  | Some c => inl c
  | None => inr ("No channel found by the ID of `" ++ id ++ "`!")
  end.

(** The string a template literal makes of [channel]. *)
Definition channel_text (channel : JSOpt Channel) : string :=
  match channel with
  | Val c => Channel_toString c
  | Undefined => "undefined"
  | Null => "null"
  end.

(** The [try] block of [getMessageByID]: a failure of [fetchMessage],
    or of the call itself on an absent channel, is caught. *)
Definition fetchMessage_or_message (channel : JSOpt Channel) (id : string)
  : Message + string :=
  match channel with
  | Val c =>
      match fetchMessage c id with
      | Some m => inl m
      | None => inr ("`" ++ id ++ "` isn't a valid message of the channel "
                     ++ channel_text channel ++ "!")
      end
  | _ => inr ("`" ++ id ++ "` isn't a valid message of the channel "
              ++ channel_text channel ++ "!")
  end.

Definition getMessageByID (channel : JSOpt Channel + string) (id : string)
  : Message + string :=
  match channel with
  | inr channelID =>
      match getChannelByID channelID with
      | inl targetChannel =>
          if CHANNEL_TYPE_eqb (channel_type targetChannel) TextChannel
             || CHANNEL_TYPE_eqb (channel_type targetChannel) DirectMessage
          then fetchMessage_or_message (Val targetChannel) id
          else inr ("`" ++ id ++ "` isn't a valid text-based channel!")
      | inr notFound => inr notFound
      end
  | inl c => fetchMessage_or_message c id
  end.

Definition getUserByID (id : string) : User + string :=
  match users_fetch id with
  | Some u => inl u
  | None => inr ("No user found by the ID of `" ++ id ++ "`!")
  end.

End Lib.

(** ** The metadata accumulators *)

(** [interface ExecuteCommandMetadata] *)
Module Meta.
Record t : Type := mk {
  header : string;
  args : list string;
  permission : Z;
  nsfw : bool;
  channelType : CHANNEL_TYPE;
  symbolicArgs : list string
}.

(** The three assignments that open [execute]:
    [if (this.permission !== -1) metadata.permission = this.permission;]
    and the like for [nsfw] and [channelType]. *)
Definition inherit (b : BaseCommand.t) (m : t) : t :=
  {| header := header m;
     args := args m;
     permission :=
       if BaseCommand.permission b =? -1 then permission m else BaseCommand.permission b;
     nsfw := match BaseCommand.nsfw b with Some v => v | None => nsfw m end;
     channelType :=
       match BaseCommand.channelType b with Some v => v | None => channelType m end;
     symbolicArgs := symbolicArgs m |}.

(** [metadata.symbolicArgs.push(s)] *)
Definition push (s : string) (m : t) : t :=
  {| header := header m; args := args m; permission := permission m;
     nsfw := nsfw m; channelType := channelType m;
     symbolicArgs := symbolicArgs m ++ [s] |}.
End Meta.

(** [defaultMetadata] of the message handler, completed the way it calls
    [execute]: [{header, args: [...args], ...defaultMetadata, symbolicArgs: []}]. *)
Definition defaultMetadata (header : string) (args : list string) : Meta.t :=
{| Meta.header := header; Meta.args := args; Meta.permission := 0;
   Meta.nsfw := false; Meta.channelType := TextChannel; Meta.symbolicArgs := [] |}.

(** The number-to-string conversion of a template literal, on integers. *)
Definition show_Z (z : Z) : string :=
match z with
| Z0 => "0"
| Zpos p => NilEmpty.string_of_uint (Pos.to_uint p)
| Zneg p => "-" ++ NilEmpty.string_of_uint (Pos.to_uint p)
end.

(** ** The permission gate *)

Section Gate.
Context `{P : Platform}.

(** [menu.channel.channel_type], which fails on an absent channel. *)
Definition menu_channel_type (menu : CommandMenu.t) : Completion CHANNEL_TYPE :=
  match CommandMenu.channel menu with
  | Val c => Return (channel_type c)
  | Undefined =>
      Throw (TypeError "Cannot read properties of undefined (reading 'channel_type')")
  | Null =>
      Throw (TypeError "Cannot read properties of null (reading 'channel_type')")
  end.

Definition must_be_server : string := "This command must be executed in a server.".
Definition must_be_dm : string := "This command must be executed as a direct message.".
Definition must_be_nsfw : string :=
  "This command must be executed in either an NSFW channel or as a direct message.".

Definition no_access (userPermLevel required : Z) : string :=
  "You don't have access to this command! Your permission level is `"
  ++ getPermissionName userPermLevel ++ "` (" ++ show_Z userPermLevel
  ++ "), but this command requires a permission level of `"
  ++ getPermissionName required ++ "` (" ++ show_Z required ++ ").".

(** The condition of the first [if]. *)
Definition not_in_server (menu : CommandMenu.t) (metadata : Meta.t) : Completion bool :=
  if CHANNEL_TYPE_eqb (Meta.channelType metadata) TextChannel then
    bind (menu_channel_type menu) (fun ct =>
    Return (negb (CHANNEL_TYPE_eqb ct TextChannel)
            || is_null (CommandMenu.server menu)
            || is_null (CommandMenu.member menu)))
  else Return false.

(** The condition of the [else if]. *)
Definition not_in_dm (menu : CommandMenu.t) (metadata : Meta.t) : Completion bool :=
  if CHANNEL_TYPE_eqb (Meta.channelType metadata) DirectMessage then
    bind (menu_channel_type menu) (fun ct =>
    Return (negb (CHANNEL_TYPE_eqb ct DirectMessage)
            || negb (is_null (CommandMenu.server menu))
            || negb (is_null (CommandMenu.member menu))))
  else Return false.

(** [metadata.nsfw && menu.channel.channel_type !== 'DirectMessage' && !menu.channel] *)
Definition nsfw_refused (menu : CommandMenu.t) (metadata : Meta.t) : Completion bool :=
  if Meta.nsfw metadata then
    bind (menu_channel_type menu) (fun ct =>
    Return (negb (CHANNEL_TYPE_eqb ct DirectMessage)
            && negb (truthy (CommandMenu.channel menu))))
  else Return false.

Definition canExecute (menu : CommandMenu.t) (metadata : Meta.t)
  : Completion (option string) :=
  bind (not_in_server menu metadata) (fun c1 =>
  if c1 then Return (Some must_be_server) else
  bind (not_in_dm menu metadata) (fun c2 =>
  if c2 then Return (Some must_be_dm) else
  bind (nsfw_refused menu metadata) (fun c3 =>
  if c3 then Return (Some must_be_nsfw) else
  if negb (hasPermission (CommandMenu.author menu) (CommandMenu.member menu)
             (Meta.permission metadata))
  then Return (Some (no_access
                       (getPermissionLevel (CommandMenu.author menu) (CommandMenu.member menu))
                       (Meta.permission metadata)))
  else Return None))).

End Gate.

(** ** [Command.execute] and [RestCommand.execute] *)

(** What a call of [execute] can change: the shared [menu.args] array
    (inside the menu), the metadata accumulator, the messages sent on the
    channel and the lines written by [console.error]. *)
Module State.
Record t : Type := mk {
  menu : CommandMenu.t;
  metadata : Meta.t;
  sent : list string;
  console_error : list string
}.

Definition with_metadata (f : Meta.t -> Meta.t) (st : t) : t :=
  {| menu := menu st; metadata := f (metadata st);
     sent := sent st; console_error := console_error st |}.

(** [metadata.symbolicArgs.push(s)] *)
Definition push_symbol (s : string) (st : t) : t := with_metadata (Meta.push s) st.

(** [menu.args.push(...xs)] *)
Definition push_args (xs : list Arg) (st : t) : t :=
  {| menu := CommandMenu.push xs (menu st); metadata := metadata st;
     sent := sent st; console_error := console_error st |}.

Definition say (texts : list string) (st : t) : t :=
  {| menu := menu st; metadata := metadata st;
     sent := sent st ++ texts; console_error := console_error st |}.

Definition log_error (line : string) (st : t) : t :=
  {| menu := menu st; metadata := metadata st;
     sent := sent st; console_error := console_error st ++ [line] |}.
End State.

(** What [execute] resolves to ([null] or a message for the user), or the
    failure it rejects with, and the state it leaves. *)
Definition Result : Type := Completion (option string) * State.t.

Definition newline : string := String (ascii_of_nat 10) EmptyString.

Section Execute.
Context `{P : Platform}.

(** [if (error) return error;] *)
Definition rejected (error : option string) : bool :=
  match error with
  | Some e => truthy_string e
  | None => false
  end.

(** [`${metadata.header} ${metadata.symbolicArgs.join(', ')}`] *)
Definition command_text (metadata : Meta.t) : string :=
  Meta.header metadata ++ " " ++ join ", " (Meta.symbolicArgs metadata).

(** The branch [typeof this.run === 'string']:
    [await menu.send(parseVars(this.run, {author: menu.author!.toString(), ...}, '???'))]. *)
Definition send_template (template : string) (st : State.t) : Result :=
  match CommandMenu.author (State.menu st) with
  | Val author =>
      let text :=
        parseVars template (User_toString author)
          (getPrefix (CommandMenu.server (State.menu st)))
          (command_text (State.metadata st)) "???" in
      match CommandMenu.send (State.menu st) text with
      | None => (Return None, State.say [text] st)
      | Some failure => (Throw failure, st)
      end
  | Undefined =>
      (Throw (TypeError "Cannot read properties of undefined (reading 'toString')"), st)
  | Null =>
      (Throw (TypeError "Cannot read properties of null (reading 'toString')"), st)
  end.

(** The [catch] clause around the handler. *)
Definition handler_failed (error : Thrown) (st : State.t) : Result :=
  let errorMessage := default (display error) (stack error) in
  (Return (Some ("There was an error while trying to execute that command!```"
                 ++ errorMessage ++ "```")),
   State.log_error
     ("Command Error: " ++ Meta.header (State.metadata st) ++ " ("
      ++ join ", " (Meta.args (State.metadata st)) ++ ")" ++ newline ++ errorMessage)
     st).

(** The [try] block around the handler. *)
Definition run_handler (outcome : Effects) (st : State.t) : Result :=
  let st := State.say (says outcome) st in
  match raises outcome with
  | None => (Return None, st)
  | Some error => handler_failed error st
  end.

(** The case [param === undefined] of [Command.execute], after the
    metadata of the node has been applied. *)
Definition run_command (run : Run) (st : State.t) : Result :=
  match canExecute (State.menu st) (State.metadata st) with
  | Throw e => (Throw e, st)
  | Return error =>
      if rejected error then (Return error, st) else
      match run with
      | RunString template => send_template template st
      | RunHandler handler => run_handler (handler (State.menu st)) st
      end
  end.

(** [RestCommand.execute(combined, menu, metadata)] *)
Definition RestCommand_execute (this : RestCommand) (combined : string) (st : State.t)
  : Result :=
  let st := State.with_metadata (Meta.inherit (rest_base this)) st in
  match canExecute (State.menu st) (State.metadata st) with
  | Throw e => (Throw e, st)
  | Return error =>
      if rejected error then (Return error, st) else
      match rest_run this with
      | RestString template => send_template template st
      | RestHandler handler => run_handler (handler combined (State.menu st)) st
      end
  end.

(** The bodies of the branches of [Command.execute]; [recurse next] is
    [next.execute(args, menu, metadata)] on the tokens left. *)

Definition on_channel (recurse : Command -> State.t -> Result)
  (next : Command) (id : string) (st : State.t) : Result :=
  match getChannelByID id with
  | inl channel =>
      recurse next (State.push_args [ArgChannel channel] (State.push_symbol "<channel>" st))
  | inr notFound => (Return (Some notFound), st)
  end.

Definition on_message (recurse : Command -> State.t -> Result)
  (next : Command) (channelID messageID : string) (st : State.t) : Result :=
  match getMessageByID (inr channelID) messageID with
  | inl message =>
      recurse next (State.push_args [ArgMessage message] (State.push_symbol "<message>" st))
  | inr notFound => (Return (Some notFound), st)
  end.

Definition on_user (recurse : Command -> State.t -> Result)
  (next : Command) (id : string) (st : State.t) : Result :=
  match getUserByID id with
  | inl user =>
      recurse next (State.push_args [ArgUser user] (State.push_symbol "<user>" st))
  | inr notFound => (Return (Some notFound), st)
  end.

Definition on_id (recurse : Command -> State.t -> Result)
  (next : Command) (idType : ID) (id : string) (st : State.t) : Result :=
  let st := State.push_symbol "<id>" st in
  match idType with
  | id_channel =>
      match getChannelByID id with
      | inl channel =>
          recurse next
            (State.push_args [ArgChannel channel] (State.push_symbol "<channel>" st))
      | inr notFound => (Return (Some notFound), st)
      end
  | id_role =>
      match CommandMenu.server (State.menu st) with
      | Val server =>
          match roles server with
          | Val table =>
              match JS.get table id with
              | Some role => recurse next (State.push_args [ArgRole role] st)
              | None => (Return (Some ("`" ++ id ++ "` isn't a valid role in this server!")), st)
              end
          | Undefined =>
              (Throw (TypeError ("Cannot read properties of undefined (reading '" ++ id ++ "')")), st)
          | Null =>
              (Throw (TypeError ("Cannot read properties of null (reading '" ++ id ++ "')")), st)
          end
      | _ => (Return (Some "You can't use role parameters in DM channels!"), st)
      end
  | id_emote => (Return (Some "Emotes aren't implemented in Revolt yet."), st)
  | id_message =>
      match getMessageByID (inl (CommandMenu.channel (State.menu st))) id with
      | inl message => recurse next (State.push_args [ArgMessage message] st)
      | inr notFound => (Return (Some notFound), st)
      end
  | id_user =>
      match getUserByID id with
      | inl user => recurse next (State.push_args [ArgUser user] st)
      | inr notFound => (Return (Some notFound), st)
      end
  | id_server =>
      match getGuildByID id with
      | inl guild => recurse next (State.push_args [ArgServer guild] st)
      | inr notFound => (Return (Some notFound), st)
      end
  end.

Definition on_number (recurse : Command -> State.t -> Result)
  (next : Command) (param : string) (st : State.t) : Result :=
  recurse next
    (State.push_args [ArgNumber (Num.of_string param)] (State.push_symbol "<number>" st)).

Definition on_any (recurse : Command -> State.t -> Result)
  (next : Command) (param : string) (st : State.t) : Result :=
  recurse next (State.push_args [ArgString param] (State.push_symbol "<any>" st)).

(** [args.unshift(param); menu.args.push(...args);
     return this.any.execute(args.join(' '), menu, metadata);] *)
Definition on_rest (next : RestCommand) (param : string) (args : list string)
  (st : State.t) : Result :=
  let args := param :: args in
  RestCommand_execute next (join " " args)
    (State.push_args (map ArgString args) (State.push_symbol "<...>" st)).

Definition no_match (param : string) (st : State.t) : Result :=
  let st := State.push_symbol (dquote ++ param ++ dquote) st in
  (Return (Some ("No valid command sequence matching `"
                 ++ Meta.header (State.metadata st) ++ " "
                 ++ join " " (Meta.symbolicArgs (State.metadata st)) ++ "` found.")),
   st).

(** [!Number.isNaN(Number(param)) && param !== 'Infinity' && param !== '-Infinity'] *)
Definition is_number_token (param : string) : bool :=
  negb (Num.isNaN (Num.of_string param))
  && negb (String.eqb param "Infinity")
  && negb (String.eqb param "-Infinity").

(** The branch of the [if ... else if ...] chain of [Command.execute]
    that a token takes, with the node it leads to and what the pattern
    captured. *)
Inductive Selected : Type :=
| sel_subcommand (sub : Command)
| sel_channel (next : Command) (id : string)
| sel_message (next : Command) (channelID messageID : string)
| sel_user (next : Command) (id : string)
| sel_id (next : Command) (idType : ID) (id : string)
| sel_number (next : Command)
| sel_any (next : Command)
| sel_rest (next : RestCommand)
| sel_none.

(** The guards of the chain, in the order the code tries them.  A guard
    [this.channel && patterns.channel.test(param)] is the match on the
    branch and on the capture of the pattern; [this.subcommands.has(param)]
    is the match on what [get] finds. *)
Definition select (this : Command) (param : string) : Selected :=
  let isMessageLink := Patterns.messageLink param in
  match JS.get (Cmd.subcommands this) param with
  | Some sub => sel_subcommand sub
  | None =>
  match Cmd.channel this, Patterns.channel param with
  | Some next, Some id => sel_channel next id
  | _, _ =>
  match Cmd.message this, isMessageLink with
  | Some next, Some (channelID, messageID) => sel_message next channelID messageID
  | _, _ =>
  match Cmd.user this, Patterns.user param with
  | Some next, Some id => sel_user next id
  | _, _ =>
  match Cmd.id this, Cmd.idType this, Patterns.id param with
  | Some next, Some idType, Some id => sel_id next idType id
  | _, _, _ =>
  match Cmd.number this, is_number_token param with
  | Some next, true => sel_number next
  | _, _ =>
  match Cmd.any this with
  | AnyCommandOf next => sel_any next
  | AnyRest next => sel_rest next
  | AnyNull => sel_none
  end end end end end end end.

(** [Command.execute(args, menu, metadata)].  [args.shift()] is the match
    on the token list; each branch of the chain runs its body. *)
Fixpoint execute (args : list string) (this : Command) (st : State.t) {struct args}
  : Result :=
  let st := State.with_metadata (Meta.inherit (Cmd.base this)) st in
  match args with
  | [] => run_command (Cmd.run this) st
  | param :: args =>
      match select this param with
      | sel_subcommand sub => execute args sub (State.push_symbol param st)
      | sel_channel next id => on_channel (execute args) next id st
      | sel_message next channelID messageID =>
          on_message (execute args) next channelID messageID st
      | sel_user next id => on_user (execute args) next id st
      | sel_id next idType id => on_id (execute args) next idType id st
      | sel_number next => on_number (execute args) next param st
      | sel_any next => on_any (execute args) next param st
      | sel_rest next => on_rest next param args st
      | sel_none => no_match param st
      end
  end.

End Execute.

(** ** [Command.resolveInfo] *)

(** [interface CommandInfoMetadata] *)
Module InfoMeta.
Record t : Type := mk {
  permission : Z;
  nsfw : bool;
  channelType : CHANNEL_TYPE;
  args : list string;
  usage : string;
  originalArgs : list string;
  header : string
}.

(** The four assignments that open [resolveInfoInternal] and
    [resolveInfoFinale]. *)
Definition inherit (b : BaseCommand.t) (m : t) : t :=
  {| permission :=
       if BaseCommand.permission b =? -1 then permission m else BaseCommand.permission b;
     nsfw := match BaseCommand.nsfw b with Some v => v | None => nsfw m end;
     channelType :=
       match BaseCommand.channelType b with Some v => v | None => channelType m end;
     args := args m;
     usage := if String.eqb (BaseCommand.usage b) EmptyString
              then usage m else BaseCommand.usage b;
     originalArgs := originalArgs m;
     header := header m |}.

(** [metadata.args.push(s)] *)
Definition push (s : string) (m : t) : t :=
  {| permission := permission m; nsfw := nsfw m; channelType := channelType m;
     args := args m ++ [s]; usage := usage m; originalArgs := originalArgs m;
     header := header m |}.
End InfoMeta.

(** A [BaseCommand] as the result of the introspection shows it. *)
Inductive Node : Type :=
| NodeCommand (c : Command)
| NodeRest (r : RestCommand).

(** [interface CommandInfo], with the [usage] and [originalArgs] that the
    spread of the metadata leaves in the object. *)
Module CommandInfo.
Record t : Type := mk {
  command : Node;
  subcommandInfo : JS.Map Node;
  keyedSubcommandInfo : JS.Map Node;
  permission : Z;
  nsfw : bool;
  channelType : CHANNEL_TYPE;
  args : list string;
  header : string;
  usage : string;
  originalArgs : list string
}.

Definition of_metadata (command : Node) (keyed generic : JS.Map Node) (m : InfoMeta.t) : t :=
  {| command := command; subcommandInfo := generic; keyedSubcommandInfo := keyed;
     permission := InfoMeta.permission m; nsfw := InfoMeta.nsfw m;
     channelType := InfoMeta.channelType m; args := InfoMeta.args m;
     header := InfoMeta.header m; usage := InfoMeta.usage m;
     originalArgs := InfoMeta.originalArgs m |}.
End CommandInfo.

(** [CommandInfo | CommandInfoError] *)
Inductive InfoResult : Type :=
| info (i : CommandInfo.t)
| error (message : string).

Section ResolveInfo.

(** [invalidSubcommandGenerator()] *)
Definition invalidSubcommand (metadata : InfoMeta.t) : InfoResult :=
  error ("No subcommand found by the argument list: `"
         ++ join " " (InfoMeta.originalArgs metadata) ++ "`").

(** The loop over [this.subcommands.entries()], which keeps the entries
    filed under the name of their command. *)
Fixpoint keyed_entries (entries : JS.Map Command) (keyed : JS.Map Node)
  : Completion (JS.Map Node) :=
  match entries with
  | [] => Return keyed
  | (tag, command) :: entries' =>
      bind (Cmd.name command) (fun name =>
      keyed_entries entries'
        (match name with
         | Val name =>
             if String.eqb tag name then JS.set keyed tag (NodeCommand command) else keyed
         | _ => keyed
         end))
  end.

(** [if (branch) subcommandInfo.set(label, branch);] *)
Definition set_branch (label : string) (branch : option Command) (m : JS.Map Node)
  : JS.Map Node :=
  match branch with
  | Some c => JS.set m label (NodeCommand c)
  | None => m
  end.

(** [`<id = <${this.idType}>>`] *)
Definition id_label (idType : option ID) : string :=
  "<id = <" ++ match idType with Some i => ID_name i | None => "null" end ++ ">>".

Definition generic_entries (this : Command) : JS.Map Node :=
  let m := set_branch "<channel>" (Cmd.channel this) [] in
  let m := set_branch "<role>" (Cmd.role this) m in
  let m := set_branch "<emote>" (Cmd.emote this) m in
  let m := set_branch "<message>" (Cmd.message this) m in
  let m := set_branch "<user>" (Cmd.user this) m in
  let m := set_branch (id_label (Cmd.idType this)) (Cmd.id this) m in
  let m := set_branch "<number>" (Cmd.number this) m in
  match Cmd.any this with
  | AnyCommandOf c => JS.set m "<any>" (NodeCommand c)
  | AnyRest r => JS.set m "<...>" (NodeRest r)
  | AnyNull => m
  end.

(** [RestCommand.resolveInfoFinale(metadata)] *)
Definition resolveInfoFinale (this : RestCommand) (metadata : InfoMeta.t) : InfoResult :=
  let metadata := InfoMeta.inherit (rest_base this) metadata in
  info (CommandInfo.of_metadata (NodeRest this) [] [] metadata).

(** The case [param === undefined] of [resolveInfoInternal]. *)
Definition describe (this : Command) (metadata : InfoMeta.t) : Completion InfoResult :=
  bind (keyed_entries (Cmd.subcommands this) []) (fun keyedSubcommandInfo =>
  Return (info (CommandInfo.of_metadata (NodeCommand this) keyedSubcommandInfo
                  (generic_entries this) metadata))).

(** [if (branch) { metadata.args.push(label); return branch.resolveInfoInternal(args, metadata); }
     else return invalidSubcommandGenerator();], with the token array as the
    call leaves it. *)
Definition into (recurse : Command -> InfoMeta.t -> Completion InfoResult * list string)
  (branch : option Command) (label : string) (args : list string) (metadata : InfoMeta.t)
  : Completion InfoResult * list string :=
  match branch with
  | Some next => recurse next (InfoMeta.push label metadata)
  | None => (Return (invalidSubcommand metadata), args)
  end.

(** [Command.resolveInfoInternal(args, metadata)]: the result, and the
    tokens left in the array [args], which the calls shift. *)
Fixpoint resolveInfoInternal (args : list string) (this : Command) (metadata : InfoMeta.t)
  {struct args} : Completion InfoResult * list string :=
  let metadata := InfoMeta.inherit (Cmd.base this) metadata in
  match args with
  | [] => (describe this metadata, [])
  | param :: args =>
      if String.eqb param "<channel>" then
        into (resolveInfoInternal args) (Cmd.channel this) "<channel>" args metadata
      else if String.eqb param "<role>" then
        into (resolveInfoInternal args) (Cmd.role this) "<role>" args metadata
      else if String.eqb param "<emote>" then
        into (resolveInfoInternal args) (Cmd.emote this) "<emote>" args metadata
      else if String.eqb param "<message>" then
        into (resolveInfoInternal args) (Cmd.message this) "<message>" args metadata
      else if String.eqb param "<user>" then
        into (resolveInfoInternal args) (Cmd.user this) "<user>" args metadata
      else if String.eqb param "<id>" then
        into (resolveInfoInternal args) (Cmd.id this) (id_label (Cmd.idType this))
          args metadata
      else if String.eqb param "<number>" then
        into (resolveInfoInternal args) (Cmd.number this) "<number>" args metadata
      else if String.eqb param "<any>" then
        match Cmd.any this with
        | AnyCommandOf next => resolveInfoInternal args next (InfoMeta.push "<any>" metadata)
        | _ => (Return (invalidSubcommand metadata), args)
        end
      else if String.eqb param "<...>" then
        match Cmd.any this with
        | AnyRest next =>
            (Return (resolveInfoFinale next (InfoMeta.push "<...>" metadata)), args)
        | _ => (Return (invalidSubcommand metadata), args)
        end
      else
        match JS.get (Cmd.subcommands this) param with
        | Some sub =>
            resolveInfoInternal args sub (InfoMeta.push param metadata)
        | None => (Return (invalidSubcommand metadata), args)
        end
  end.

(** [Command.resolveInfo(args, header)]; [originalArgs] is a copy of the
    tokens, made before any is shifted. *)
Definition resolveInfo (args : list string) (this : Command) (header : string)
  : Completion InfoResult * list string :=
  resolveInfoInternal args this
    {| InfoMeta.permission := 0;
       InfoMeta.nsfw := false;
       InfoMeta.channelType := TextChannel;
       InfoMeta.header := header;
       InfoMeta.args := [];
       InfoMeta.usage := EmptyString;
       InfoMeta.originalArgs := args |}.

End ResolveInfo.

(** ** The constructors *)

(** The sub-commands handed to a constructor are objects that it changes
    (it sets their name) and that its map then shares: they live in a
    heap and are known by reference. *)
Abbreviation Ref := nat.
Abbreviation Heap := (gmap nat Command).

(** [interface CommandOptions]; a missing [options] is the record with
    no field set.  The keys of [subcommands] come in the order the
    [for ... in] loops and [Object.keys] list them, each key once. *)
Module Options.
Record t : Type := mk {
  description : option string;
  usage : option string;
  permission : option Z;
  nsfw : option bool;
  channelType : option CHANNEL_TYPE;
  run : option Run;
  subcommands : option (list (string * Ref));
  channel : option Command;
  role : option Command;
  emote : option Command;
  message : option Command;
  user : option Command;
  guild : option Command;
  id : option ID;
  number : option Command;
  any : AnyCommand
}.
End Options.

Module Construct.

(** [constructor(options?: CommandOptionsBase)] of [BaseCommand] *)
Definition BaseCommand_new (o : Options.t) : BaseCommand.t :=
  {| BaseCommand.description :=
       match Options.description o with
       | Some d => if truthy_string d then d else "No description."
       | None => "No description."
       end;
     BaseCommand.usage := default EmptyString (Options.usage o);
     BaseCommand.permission := default (-1) (Options.permission o);
     BaseCommand.nsfw := Options.nsfw o;
     BaseCommand.channelType := Options.channelType o |}.

(** [options?.run || 'No action was set on this command!'] *)
Definition run_or_default (r : option Run) : Run :=
  match r with
  | Some (RunString t) =>
      if truthy_string t then RunString t else RunString "No action was set on this command!"
  | Some (RunHandler h) => RunHandler h
  | None => RunString "No action was set on this command!"
  end.

(** The [switch (options.id)] that fills [this.id]. *)
Definition id_branch (o : Options.t) : option Command :=
  match Options.id o with
  | Some id_channel => Options.channel o
  | Some id_role => Options.role o
  | Some id_emote => Options.emote o
  | Some id_message => Options.message o
  | Some id_user => Options.user o
  | Some id_server => Options.guild o
  | None => None
  end.

Definition warn_base (alias name : string) : string :=
  dquote ++ alias ++ dquote ++ " in subcommand " ++ dquote ++ name ++ dquote
  ++ " was attempted to be declared as an alias but it already exists in the base commands! (Look at the next "
  ++ dquote ++ "Loading Command" ++ dquote ++ " line to see which command is affected.)".

Definition warn_duplicate (alias name : string) : string :=
  "Duplicate alias " ++ dquote ++ alias ++ dquote ++ " at subcommand " ++ dquote ++ name
  ++ dquote ++ "! (Look at the next " ++ dquote ++ "Loading Command" ++ dquote
  ++ " line to see which command is affected.)".

(** What the loops of the constructor build: the map from names and
    aliases to the sub-commands, and the lines of [console.warn]. *)
Definition Table : Type := JS.Map Ref * list string.

(** [for (const name in options.subcommands)
       this.subcommands.set(name, options.subcommands[name]);] *)
Definition set_base (entries : list (string * Ref)) : JS.Map Ref :=
  fold_left (fun m e => JS.set m (fst e) (snd e)) entries [].

(** [for (const alias of aliases) ...] *)
Fixpoint set_aliases (baseSubcommands : list string) (name : string) (subcmd : Ref)
  (aliases : list string) (t : Table) : Table :=
  match aliases with
  | [] => t
  | alias :: aliases' =>
      set_aliases baseSubcommands name subcmd aliases'
        (if JS.includes baseSubcommands alias then (fst t, (snd t ++ [warn_base alias name])%list)
         else if JS.has (fst t) alias then (fst t, (snd t ++ [warn_duplicate alias name])%list)
         else (JS.set (fst t) alias subcmd, snd t))
  end.

(** The second loop: each sub-command gets its name, then its aliases
    are entered.  A sub-command that is no [NamedCommand] has no
    [aliases] to iterate over. *)
Fixpoint name_and_alias (baseSubcommands : list string) (entries : list (string * Ref))
  (t : Table) (h : Heap) : Completion (Table * Heap) :=
  match entries with
  | [] => Return (t, h)
  | (name, subcmd) :: entries' =>
      match h !! subcmd with
      | Some object =>
          match Cmd.named object with
          | Some n =>
              bind (Cmd.set_name n name) (fun n' =>
              name_and_alias baseSubcommands entries'
                (set_aliases baseSubcommands name subcmd (aliases n') t)
                (<[subcmd := Cmd.with_named (Some n') object]> h))
          | None => Throw (TypeError "aliases is not iterable")
          end
      | None => Throw (TypeError "options.subcommands[name] is undefined")
      end
  end.

(** [if (options?.subcommands) { ... }] *)
Definition subcommands_new (entries : option (list (string * Ref))) (h : Heap)
  : Completion (Table * Heap) :=
  match entries with
  | Some entries =>
      name_and_alias (map fst entries) entries (set_base entries, []) h
  | None => Return (([], []), h)
  end.

(** The sub-commands a map of references stands for. *)
Definition snapshot (h : Heap) (m : JS.Map Ref) : JS.Map Command :=
  omap (fun e => pair (fst e) <$> (h !! snd e)) m.

(** [new Command(options)]: the command, its map of sub-commands by
    reference, the warnings and the heap after the call. *)
Definition Command_new (o : Options.t) (h : Heap)
  : Completion (Command * JS.Map Ref * list string * Heap) :=
  bind (subcommands_new (Options.subcommands o) h) (fun r =>
  let '((m, warnings), h') := r in
  Return (mkCommand (BaseCommand_new o) (run_or_default (Options.run o))
            (snapshot h' m)
            (Options.channel o) (Options.role o) (Options.emote o)
            (Options.message o) (Options.user o) (Options.guild o)
            (id_branch o) (Options.id o) (Options.number o) (Options.any o) None,
          m, warnings, h')).

(** [new NamedCommand(options)], with [aliases] and [nameOverride]. *)
Definition NamedCommand_new (o : Options.t) (aliases : option (list string))
  (nameOverride : option string) (h : Heap)
  : Completion (Command * JS.Map Ref * list string * Heap) :=
  bind (Command_new o h) (fun r =>
  let '(c, m, warnings, h') := r in
  Return (Cmd.with_named (Some (mkNamed (default [] aliases) nameOverride)) c,
          m, warnings, h')).

End Construct.

(** ** Notions the statements below use *)

(** *** The priority table of the dispatch, as the design document has it *)

Inductive Kind : Type :=
| by_name
| by_channel_mention
| by_message_link
| by_user_mention
| by_bare_id
| by_number
| by_any_command
| by_any_rest.

(** Steps (a) to (h), highest priority first. *)
Definition priority : list Kind :=
[by_name; by_channel_mention; by_message_link; by_user_mention;
 by_bare_id; by_number; by_any_command; by_any_rest].

Definition present {A} (o : option A) : bool :=
match o with Some _ => true | None => false end.

(** Whether a token fits a step of the table, each step on its own. *)
Definition matches (this : Command) (param : string) (k : Kind) : bool :=
match k with
| by_name => JS.has (Cmd.subcommands this) param
| by_channel_mention =>
    present (Cmd.channel this) && Patterns.test (Patterns.channel param)
| by_message_link =>
    present (Cmd.message this) && Patterns.test (Patterns.messageLink param)
| by_user_mention =>
    present (Cmd.user this) && Patterns.test (Patterns.user param)
| by_bare_id =>
    present (Cmd.id this) && present (Cmd.idType this)
    && Patterns.test (Patterns.id param)
| by_number =>
    present (Cmd.number this)
    && negb (Num.isNaN (Num.of_string param))
    && negb (String.eqb param "Infinity") && negb (String.eqb param "-Infinity")
| by_any_command =>
    match Cmd.any this with AnyCommandOf _ => true | _ => false end
| by_any_rest =>
    match Cmd.any this with AnyRest _ => true | _ => false end
end.

(** First match wins. *)
Definition first_match (this : Command) (param : string) : option Kind :=
List.find (matches this param) priority.

(** The step of the table a branch of the code stands for. *)
Definition kind_of (s : Selected) : option Kind :=
match s with
| sel_subcommand _ => Some by_name
| sel_channel _ _ => Some by_channel_mention
| sel_message _ _ _ => Some by_message_link
| sel_user _ _ => Some by_user_mention
| sel_id _ _ _ => Some by_bare_id
| sel_number _ => Some by_number
| sel_any _ => Some by_any_command
| sel_rest _ => Some by_any_rest
| sel_none => None
end.


(** A token reaches the [any] slot when no typed branch takes it. *)
Definition reaches_any (this : Command) (param : string) : bool :=
match select this param with
| sel_any _ | sel_rest _ | sel_none => true
| _ => false
end.

(** *** The nodes on the path of a resolution *)

(** The deepest node of a path that sets a field, if any does. *)
Definition deepest {A} (field : BaseCommand.t -> option A) (path : list BaseCommand.t)
  : option A :=
head (omap field (rev path)).

Definition permission_override (b : BaseCommand.t) : option Z :=
if BaseCommand.permission b =? -1 then None else Some (BaseCommand.permission b).

(** The permission, NSFW flag and channel type that a walk down a path
    resolves to, from the values it starts with: for each of the three,
    on its own, the value of the deepest node that sets it. *)
Definition Rules : Type := Z * bool * CHANNEL_TYPE.

Definition overridden (path : list BaseCommand.t) (start : Rules) : Rules :=
(default (fst (fst start)) (deepest permission_override path),
 default (snd (fst start)) (deepest BaseCommand.nsfw path),
 default (snd start) (deepest BaseCommand.channelType path)).

Definition Meta_rules (m : Meta.t) : Rules :=
(Meta.permission m, Meta.nsfw m, Meta.channelType m).

Definition CommandInfo_rules (i : CommandInfo.t) : Rules :=
(CommandInfo.permission i, CommandInfo.nsfw i, CommandInfo.channelType i).

(** The root default. *)
Definition default_rules : Rules := (0, false, TextChannel).

(** The node a placeholder or a name leads to in the introspection. *)
Definition info_next (this : Command) (param : string) : option Node :=
if String.eqb param "<channel>" then NodeCommand <$> Cmd.channel this
else if String.eqb param "<role>" then NodeCommand <$> Cmd.role this
else if String.eqb param "<emote>" then NodeCommand <$> Cmd.emote this
else if String.eqb param "<message>" then NodeCommand <$> Cmd.message this
else if String.eqb param "<user>" then NodeCommand <$> Cmd.user this
else if String.eqb param "<id>" then NodeCommand <$> Cmd.id this
else if String.eqb param "<number>" then NodeCommand <$> Cmd.number this
else if String.eqb param "<any>" then
  match Cmd.any this with AnyCommandOf c => Some (NodeCommand c) | _ => None end
else if String.eqb param "<...>" then
  match Cmd.any this with AnyRest r => Some (NodeRest r) | _ => None end
else NodeCommand <$> JS.get (Cmd.subcommands this) param.

(** The metadata of the nodes from the root to the node the tokens
    lead to, a rest leaf ending the path. *)
Fixpoint info_path (args : list string) (this : Command) : option (list BaseCommand.t) :=
match args with
| [] => Some [Cmd.base this]
| param :: args =>
    match info_next this param with
    | Some (NodeCommand next) => cons (Cmd.base this) <$> info_path args next
    | Some (NodeRest r) => Some [Cmd.base this; rest_base r]
    | None => None
    end
end.

(** *** Token arrays as objects *)

(** The arrays of the caller of [resolveInfo], by reference. *)
Abbreviation Arrays := (gmap nat (list string)).



(** *** Calls that return *)


(** *** Call contexts in which nothing is missing *)



Definition option_all (f : Command -> bool) (o : option Command) : bool :=
match o with Some c => f c | None => true end.


(** *** The aliases a constructor is given, in the order it enters them *)

(** The aliases of the sub-commands, each with the name and the
    reference of its sub-command. *)
Definition alias_declarations (h : gmap nat Command) (entries : list (string * nat))
  : list (string * (string * nat)) :=
flat_map
  (fun e =>
     match h !! snd e with
     | Some object =>
         match Cmd.named object with
         | Some n => map (fun alias => (alias, (fst e, snd e))) (aliases n)
         | None => []
         end
     | None => []
     end)
  entries.

(** The binding an alias declaration asks for. *)
Definition binding (d : string * (string * nat)) : string * nat := (fst d, snd (snd d)).

(** Every name of the base commands is bound in the table. *)
Definition covers (base : list string) (t : Construct.Table) : Prop :=
forall a, In a base -> JS.get (fst t) a <> None.

(** One turn of the loop over the aliases. *)
Definition step (base : list string) (d : string * (string * nat)) (t : Construct.Table)
  : Construct.Table :=
Construct.set_aliases base (fst (snd d)) (snd (snd d)) [fst d] t.

(** The loop over the aliases, run over all the declarations in one go. *)
Fixpoint enter (baseSubcommands : list string) (decls : list (string * (string * nat)))
  (t : Construct.Table) : Construct.Table :=
match decls with
| [] => t
| d :: decls' =>
    enter baseSubcommands decls'
      (Construct.set_aliases baseSubcommands (fst (snd d)) (snd (snd d)) [fst d] t)
end.

(** *** Lookups that fail *)

Section Lookups.
Context `{P : Platform}.

(** The node whose [execute] a token hands the tokens left to, if the
    token takes a branch and the lookup of that branch finds a value. *)
Definition exec_next (this : Command) (param : string) (menu : CommandMenu.t)
  : option Node :=
  match select this param with
  | sel_subcommand sub => Some (NodeCommand sub)
  | sel_channel next id =>
      match getChannelByID id with inl _ => Some (NodeCommand next) | inr _ => None end
  | sel_message next channelID messageID =>
      match getMessageByID (inr channelID) messageID with
      | inl _ => Some (NodeCommand next)
      | inr _ => None
      end
  | sel_user next id =>
      match getUserByID id with inl _ => Some (NodeCommand next) | inr _ => None end
  | sel_id next id_channel id =>
      match getChannelByID id with inl _ => Some (NodeCommand next) | inr _ => None end
  | sel_id next id_role id =>
      match CommandMenu.server menu with
      | Val server =>
          match roles server with
          | Val table =>
              match JS.get table id with Some _ => Some (NodeCommand next) | None => None end
          | _ => None
          end
      | _ => None
      end
  | sel_id next id_emote id => None
  | sel_id next id_message id =>
      match getMessageByID (inl (CommandMenu.channel menu)) id with
      | inl _ => Some (NodeCommand next)
      | inr _ => None
      end
  | sel_id next id_user id =>
      match getUserByID id with inl _ => Some (NodeCommand next) | inr _ => None end
  | sel_id next id_server id =>
      match getGuildByID id with inl _ => Some (NodeCommand next) | inr _ => None end
  | sel_number next => Some (NodeCommand next)
  | sel_any next => Some (NodeCommand next)
  | sel_rest next => Some (NodeRest next)
  | sel_none => None
  end.

(** The metadata of the nodes that a call of [execute] goes through,
    from the node it is called on to the node it stops at. *)
Fixpoint exec_path (args : list string) (this : Command) (menu : CommandMenu.t)
  : list BaseCommand.t :=
  Cmd.base this ::
  match args with
  | [] => []
  | param :: args =>
      match exec_next this param menu with
      | Some (NodeCommand next) => exec_path args next menu
      | Some (NodeRest next) => [rest_base next]
      | None => []
      end
  end.

(** The token takes a branch that looks its capture up (a channel
    mention, a message link, a user mention or a bare ID resolved by a
    fetch), and the lookup answers with the message [notFound]. *)
Definition lookup_fails (s : Selected) (menu : CommandMenu.t) (notFound : string) : Prop :=
  match s with
  | sel_channel _ id => getChannelByID id = inr notFound
  | sel_message _ channelID messageID => getMessageByID (inr channelID) messageID = inr notFound
  | sel_user _ id => getUserByID id = inr notFound
  | sel_id _ id_channel id => getChannelByID id = inr notFound
  | sel_id _ id_message id => getMessageByID (inl (CommandMenu.channel menu)) id = inr notFound
  | sel_id _ id_user id => getUserByID id = inr notFound
  | sel_id _ id_server id => getGuildByID id = inr notFound
  | _ => False
  end.

End Lookups.

(** ** Further notions *)

(** *** Sub-commands before and after their parent is built *)

(** The object at a reference is a [NamedCommand] that has no name yet. *)
Definition fresh (h : gmap nat Command) (r : nat) : Prop :=
exists object n,
  h !! r = Some object /\ Cmd.named object = Some n /\ originalCommandName n = None.

(** A [NamedCommand] once [name] has been assigned to it. *)
Definition named_as (name : string) (object : Command) : Command :=
match Cmd.named object with
| Some n => Cmd.with_named (Some (mkNamed (aliases n) (Some name))) object
| None => object
end.

(** The branch of a command for a kind of ID. *)
Definition kind_branch (k : ID) (c : Command) : option Command :=
match k with
| id_channel => Cmd.channel c
| id_role => Cmd.role c
| id_emote => Cmd.emote c
| id_message => Cmd.message c
| id_user => Cmd.user c
| id_server => Cmd.guild c
end.

(** *** Tokens and trails of the introspection *)

(** The placeholders that [resolveInfo] reads as typed branches. *)
Definition markers : list string :=
["<channel>"; "<role>"; "<emote>"; "<message>"; "<user>"; "<id>"; "<number>";
 "<any>"; "<...>"].

Definition is_marker (param : string) : bool := JS.includes markers param.

(** An entry of the trail stands for a token: it is the token, or for
    the token [<id>] the label that names the kind of ID. *)
Definition mirrors (token label : string) : Prop :=
label = token \/ (token = "<id>" /\ exists k, label = id_label k).

(** The usage of a node, if it sets one. *)
Definition usage_override (b : BaseCommand.t) : option string :=
if String.eqb (BaseCommand.usage b) EmptyString then None else Some (BaseCommand.usage b).

(** The node that a list of names of sub-commands leads to. *)
Fixpoint named_path (args : list string) (this : Command) : option Command :=
match args with
| [] => Some this
| param :: args =>
    match JS.get (Cmd.subcommands this) param with
    | Some sub => named_path args sub
    | None => None
    end
end.

(** The accumulator after the nodes down a list of names have been
    entered, the last one included. *)
Fixpoint info_along (args : list string) (this : Command) (metadata : InfoMeta.t)
  : InfoMeta.t :=
let metadata := InfoMeta.inherit (Cmd.base this) metadata in
match args with
| [] => metadata
| param :: args =>
    match JS.get (Cmd.subcommands this) param with
    | Some sub => info_along args sub (InfoMeta.push param metadata)
    | None => metadata
    end
end.

Fixpoint meta_along (args : list string) (this : Command) (metadata : Meta.t) : Meta.t :=
let metadata := Meta.inherit (Cmd.base this) metadata in
match args with
| [] => metadata
| param :: args =>
    match JS.get (Cmd.subcommands this) param with
    | Some sub => meta_along args sub (Meta.push param metadata)
    | None => metadata
    end
end.

(** *** What a call of [execute] may change *)





(** ** [handler.ts]: the message handler *)

Module Handler.

(** [text.split(/ +/)]: the pieces between the runs of spaces.  A run at
    the start or at the end of the text leaves an empty piece there; a
    text without spaces is its own single piece. *)
Fixpoint split_spaces (text : string) : list string :=
match text with
| EmptyString => [EmptyString]
| String c rest =>
    if Ascii.eqb c " " then
      match rest with
      | String d _ =>
          if Ascii.eqb d " " then split_spaces rest else EmptyString :: split_spaces rest
      | EmptyString => EmptyString :: split_spaces rest
      end
    else
      match split_spaces rest with
      | piece :: pieces => String c piece :: pieces
      | [] => [String c EmptyString]
      end
end.

(** What the handler reads of a message: its author, content and member,
    its channel with the server of the channel, and [sendMessage] of the
    channel, which answers with the failure of its promise if it
    rejects. *)
Record Incoming : Type := {
  author : JSOpt User;
  content : string;
  member : JSOpt Member;
  channel : JSOpt Channel;
  server : JSOpt Server;
  sendMessage : string -> option Thrown
}.

(** [interface ExecutedCommandInfo] *)
Record ExecutedCommandInfo : Type := {
  header : string;
  args : list string;
  executed_in : Channel
}.

(** What the handler takes from the rest of the library and from the
    client: the commands that were loaded, the user the client is logged
    in as, and the [bot] field of a user ([null] for a person). *)
Class Client : Type := {
  commands : JS.Map Command;
  client_user : JSOpt string;
  bot : User -> JSOpt string
}.

(** An intercept rule; it may fail. *)
Definition Rule : Type := Incoming -> Completion bool.

(** What a run of the handler does that can be seen from outside. *)
Record Log : Type := {
  sent : list string;
  listened : list ExecutedCommandInfo;
  console_error : list string
}.

Definition quiet : Log := {| sent := []; listened := []; console_error := [] |}.

Section Handler.
Context `{P : Platform} `{C : Client}.

(** [(message) => message.author!.bot !== null] *)
Definition default_rule : Rule :=
  fun message =>
    match author message with
    | Val user => Return (negb (is_null (bot user)))
    | Undefined =>
        Throw (TypeError "Cannot read properties of undefined (reading 'bot')")
    | Null => Throw (TypeError "Cannot read properties of null (reading 'bot')")
    end.

(** [const interceptRules = [...]] *)
Definition interceptRules : list Rule := [default_rule].

(** [addInterceptRule(handler)] *)
Definition addInterceptRule (handler : Rule) (rules : list Rule) : list Rule :=
  (rules ++ [handler])%list.

(** [for (const shouldIntercept of interceptRules) if (shouldIntercept(message)) return;] *)
Fixpoint intercepted (rules : list Rule) (message : Incoming) : Completion bool :=
  match rules with
  | [] => Return false
  | shouldIntercept :: rules' =>
      bind (shouldIntercept message) (fun stop =>
      if stop then Return true else intercepted rules' message)
  end.

(** [send(text)], not awaited: a rejection is nobody's. *)
Definition send_to (message : Incoming) (text : string) (log : Log) : Log :=
  match sendMessage message text with
  | None =>
      {| sent := sent log ++ [text]; listened := listened log;
         console_error := console_error log |}
  | Some _ => log
  end.

Definition not_found (header : string) : string :=
  "I couldn't find the command or alias that starts with `" ++ header
  ++ "`. To see the list of commands, type `help`".

Definition my_prefix (prefix : string) : string :=
  "My prefix on this server is `" ++ prefix ++ "`.".

(** [{author, channel, client, member, message, server, args: [], send}] *)
Definition menu_of (message : Incoming) (channel : Channel) : CommandMenu.t :=
  {| CommandMenu.args := [];
     CommandMenu.channel := Val channel;
     CommandMenu.server := server message;
     CommandMenu.author := author message;
     CommandMenu.member := member message;
     CommandMenu.send := sendMessage message |}.

(** The block [if (commands.has(header)) { ... }], the same in both
    branches but for what happens to an unknown header; [listener] is the
    current [executedCommandListener]. *)
Definition run_line (listener : ExecutedCommandInfo -> option Thrown)
  (message : Incoming) (channel : Channel) (line : string) (reply_unknown : bool)
  : Completion unit * Log :=
  match split_spaces line with
  | [] => (Return tt, quiet)
  | header :: args =>
      match JS.get commands header with
      | Some command =>
          let executed := {| header := header; args := args; executed_in := channel |} in
          match listener executed with
          | Some failure => (Throw failure, quiet)
          | None =>
              let '(outcome, st) :=
                execute args command
                  {| State.menu := menu_of message channel;
                     State.metadata := defaultMetadata header args;
                     State.sent := []; State.console_error := [] |} in
              let log :=
                {| sent := State.sent st; listened := [executed];
                   console_error := State.console_error st |} in
              match outcome with
              | Throw failure => (Throw failure, log)
              | Return result =>
                  match result with
                  | Some text =>
                      if truthy_string text
                      then (Return tt, send_to message text log)
                      else (Return tt, log)
                  | None => (Return tt, log)
                  end
              end
          end
      | None =>
          if reply_unknown
          then (Return tt, send_to message (not_found header) quiet)
          else (Return tt, quiet)
      end
  end.

(** [new RegExp(`^<@!?${client.user!._id}>$`).test(text)]; the
    identifiers of the platform are made of letters and digits, which
    stand for themselves in the pattern. *)
Definition is_ping (id text : string) : bool :=
  String.eqb text ("<@" ++ id ++ ">") || String.eqb text ("<@!" ++ id ++ ">").

(** The listener of the [message] event. *)
Definition on_message (rules : list Rule) (listener : ExecutedCommandInfo -> option Thrown)
  (message : Incoming) : Completion unit * Log :=
  match intercepted rules message with
  | Throw failure => (Throw failure, quiet)
  | Return true => (Return tt, quiet)
  | Return false =>
      match channel message with
      | Val channel =>
          let text := content message in
          if CHANNEL_TYPE_eqb (channel_type channel) DirectMessage then
            run_line listener message channel text true
          else
            let prefix := getPrefix (server message) in
            match client_user with
            | Val id =>
                if is_ping id text
                then (Return tt, send_to message (my_prefix prefix) quiet)
                else
                  match Patterns.strip_prefix prefix text with
                  | Some line => run_line listener message channel line false
                  | None => (Return tt, quiet)
                  end
            | Undefined =>
                (Throw (TypeError "Cannot read properties of undefined (reading '_id')"),
                 quiet)
            | Null =>
                (Throw (TypeError "Cannot read properties of null (reading '_id')"), quiet)
            end
      | Undefined =>
          (Throw (TypeError "Cannot read properties of undefined (reading 'server')"), quiet)
      | Null =>
          (Throw (TypeError "Cannot read properties of null (reading 'server')"), quiet)
      end
  end.

End Handler.

End Handler.

(** *** Texts and trees for the handler *)

(** The text has no space. *)
Fixpoint spaceless (s : string) : bool :=
match s with
| EmptyString => true
| String c s' => negb (Ascii.eqb c " ") && spaceless s'
end.

Definition for_servers (b : BaseCommand.t) : bool :=
match BaseCommand.channelType b with
| None | Some TextChannel => true
| Some _ => false
end.

(** No node of the tree asks for another channel type than the text
    channel of a server. *)
Fixpoint server_only (c : Command) : bool :=
match c with
| mkCommand b _ subs ch ro em me us gu i _ nu an _ =>
    for_servers b
    && forallb (fun e => server_only (snd e)) subs
    && option_all server_only ch && option_all server_only ro
    && option_all server_only em && option_all server_only me
    && option_all server_only us && option_all server_only gu
    && option_all server_only i && option_all server_only nu
    && match an with
       | AnyCommandOf c' => server_only c'
       | AnyRest r => for_servers (rest_base r)
       | AnyNull => true
       end
end.

(** The rules after some calls of [addInterceptRule]. *)
Definition rules_after `{C : Handler.Client} (added : list Handler.Rule)
  : list Handler.Rule :=
fold_left (fun rules handler => Handler.addInterceptRule handler rules) added
  Handler.interceptRules.

(** The call is made for a node that wants a server, from a channel that
    is not the text channel of a server. *)
Definition outside_server (st : State.t) : Prop :=
Meta.channelType (State.metadata st) = TextChannel
/\ exists c, CommandMenu.channel (State.menu st) = Val c
             /\ channel_type c <> TextChannel.

(** The call did not end well, and nothing was sent or logged by it. *)
Definition refused (st : State.t) (r : Result) : Prop :=
fst r <> Return None
/\ State.sent (snd r) = State.sent st
/\ State.console_error (snd r) = State.console_error st.

(** The channel has messages. *)
Definition text_based (c : Channel) : Prop :=
channel_type c = TextChannel \/ channel_type c = DirectMessage.

(** The message of a failed lookup, if it failed. *)
Definition failure_text {A} (found : A + string) : option string :=
match found with
| inl _ => None
| inr notFound => Some notFound
end.

(** ** [interface.ts]: the settings of the library *)

Module Interface.

(** [interface PermissionLevel] *)
Record PermissionLevel : Type := {
  level_name : string;
  check : User -> JSOpt Member -> bool
}.

(** [interface LaunchSettings]; every field is optional. *)
Module LaunchSettings.
Record t : Type := mk {
  permissionLevels : option (list PermissionLevel);
  getPrefix : option (JSOpt Server -> string);
  categoryTransformer : option (string -> string);
  useTSExtension : option bool
}.
End LaunchSettings.

(** The variables of the module, with what [launch] does to the rest of
    the library: the clients it resets and attaches the message handler
    to (a client is known by its reference), the calls of [loadCommands]
    and the lines of [console.warn]. *)
Module Config.
Record t : Type := mk {
  client : nat;
  permissionLevels : list PermissionLevel;
  getPrefix : JSOpt Server -> string;
  categoryTransformer : string -> string;
  reset : list nat;
  loadCommands : list (string * bool);
  attached : list nat;
  console_warn : list string
}.
End Config.

(** The values the module starts with; [placeholder] is the client made
    by [new Client()]. *)
Definition initial (placeholder : nat) : Config.t :=
{| Config.client := placeholder;
   Config.permissionLevels := [{| level_name := "User"; check := fun _ _ => true |}];
   Config.getPrefix := fun _ => ".";
   Config.categoryTransformer := fun text => text;
   Config.reset := [];
   Config.loadCommands := [];
   Config.attached := [];
   Config.console_warn := [] |}.

Definition levels_warning : string :=
"permissionLevels must have at least one element to work!".

(** [settings?.field] *)
Definition given {A} (settings : option LaunchSettings.t)
  (field : LaunchSettings.t -> option A) : option A :=
match settings with
| Some s => field s
| None => None
end.

(** [launch(newClient, commandsDirectory, settings)] *)
Definition launch (newClient : nat) (commandsDirectory : string)
  (settings : option LaunchSettings.t) (cfg : Config.t) : Config.t :=
let useTS :=
  match given settings LaunchSettings.useTSExtension with
  | Some b => b
  | None => false
  end in
let levels := given settings LaunchSettings.permissionLevels in
{| Config.client := newClient;
   Config.permissionLevels :=
     match levels with
     | Some (level :: more) => level :: more
     | Some [] | None => Config.permissionLevels cfg
     end;
   Config.getPrefix :=
     match given settings LaunchSettings.getPrefix with
     | Some resolver => resolver
     | None => Config.getPrefix cfg
     end;
   Config.categoryTransformer :=
     match given settings LaunchSettings.categoryTransformer with
     | Some transformer => transformer
     | None => Config.categoryTransformer cfg
     end;
   Config.reset := Config.reset cfg ++ [Config.client cfg];
   Config.loadCommands := Config.loadCommands cfg ++ [(commandsDirectory, useTS)];
   Config.attached := Config.attached cfg ++ [newClient];
   Config.console_warn :=
     match levels with
     | Some [] => Config.console_warn cfg ++ [levels_warning]
     | _ => Config.console_warn cfg
     end |}.

End Interface.

(** One call of [launch]: the client, the directory and the settings. *)
Definition Launch : Type := nat * string * option Interface.LaunchSettings.t.

(** The module after the calls, in their order. *)
Definition launched (calls : list Launch) (placeholder : nat) : Interface.Config.t :=
fold_left (fun cfg call => Interface.launch (fst (fst call)) (snd (fst call)) (snd call) cfg)
  calls (Interface.initial placeholder).

(** The call gives an empty list of permission levels. *)
Definition without_levels (call : Launch) : bool :=
match Interface.given (snd call) Interface.LaunchSettings.permissionLevels with
| Some [] => true
| _ => false
end.

(** The levels the last call that gave any left in place. *)
Fixpoint levels_given (calls : list Launch) : option (list Interface.PermissionLevel) :=
match calls with
| [] => None
| call :: calls' =>
    match levels_given calls' with
    | Some levels => Some levels
    | None =>
        match Interface.given (snd call) Interface.LaunchSettings.permissionLevels with
        | Some (level :: more) => Some (level :: more)
        | _ => None
        end
    end
end.

(** ** Sample platform, contexts and trees *)

Module Sample.

(** A platform that knows one channel and one user, lets every caller
    run the commands of level 0 and leaves templates as they are. *)
Definition known_channel_id : string := "01GXCHANNEL0000000000000000".
Definition known_user_id : string := "01GXUSER0000000000000000000".

Definition platform : Platform :=
{| channels_fetch id :=
     if String.eqb id known_channel_id
     then Some {| channel_id := id; channel_type := TextChannel |} else None;
   users_fetch id :=
     if String.eqb id known_user_id then Some {| user_id := id |} else None;
   servers_get _ := None;
   fetchMessage _ _ := None;
   Channel_toString c := "<#" ++ channel_id c ++ ">";
   User_toString u := "<@" ++ user_id u ++ ">";
   getPrefix _ := ".";
   parseVars template _ _ _ _ := template;
   hasPermission _ _ level := level <=? 0;
   getPermissionLevel _ _ := 0;
   getPermissionName _ := "User" |}.

Definition text_channel : Channel :=
{| channel_id := known_channel_id; channel_type := TextChannel |}.

Definition dm_channel : Channel :=
{| channel_id := "01GXDM00000000000000000000"; channel_type := DirectMessage |}.

Definition someone : User := {| user_id := known_user_id |}.

Definition home : Server :=
{| server_id := "01GXSERVER00000000000000000"; roles := Val [] |}.

(** A message in a server channel. *)
Definition server_menu : CommandMenu.t :=
{| CommandMenu.args := [];
   CommandMenu.channel := Val text_channel;
   CommandMenu.server := Val home;
   CommandMenu.author := Val someone;
   CommandMenu.member := Val {| member_id := known_user_id |};
   CommandMenu.send := fun _ => None |}.

(** A direct message, as the message handler builds its menu: no server
    and no member, both [undefined]. *)
Definition dm_menu : CommandMenu.t :=
{| CommandMenu.args := [];
   CommandMenu.channel := Val dm_channel;
   CommandMenu.server := Undefined;
   CommandMenu.author := Val someone;
   CommandMenu.member := Undefined;
   CommandMenu.send := fun _ => None |}.


(** The state in which the message handler calls [execute]. *)
Definition start (menu : CommandMenu.t) (header : string) (args : list string) : State.t :=
{| State.menu := menu; State.metadata := defaultMetadata header args;
   State.sent := []; State.console_error := [] |}.

(** The metadata of a node that sets nothing. *)
Definition inherits : BaseCommand.t :=
{| BaseCommand.description := "No description."; BaseCommand.usage := EmptyString;
   BaseCommand.permission := -1; BaseCommand.nsfw := None;
   BaseCommand.channelType := None |}.

Definition requires (level : Z) : BaseCommand.t :=
{| BaseCommand.description := "No description."; BaseCommand.usage := EmptyString;
   BaseCommand.permission := level; BaseCommand.nsfw := None;
   BaseCommand.channelType := None |}.

Definition only_in (ct : CHANNEL_TYPE) : BaseCommand.t :=
{| BaseCommand.description := "No description."; BaseCommand.usage := EmptyString;
   BaseCommand.permission := -1; BaseCommand.nsfw := None;
   BaseCommand.channelType := Some ct |}.

(** A command without branches. *)
Definition leaf (base : BaseCommand.t) (run : Run) : Command :=
mkCommand base run [] None None None None None None None None None AnyNull None.

(** The same, as a [NamedCommand] that has got its name. *)
Definition named_leaf (name : string) (aliases : list string) (base : BaseCommand.t)
  (run : Run) : Command :=
mkCommand base run [] None None None None None None None None None AnyNull
  (Some (mkNamed aliases (Some name))).

(** A command with sub-commands and nothing else. *)
Definition group (base : BaseCommand.t) (subcommands : JS.Map Command) : Command :=
mkCommand base (RunString "No action was set on this command!") subcommands
  None None None None None None None None None AnyNull None.

(** A handler that answers with what it was given. *)
Definition said (a : Arg) : string :=
match a with
| ArgString s => s
| ArgNumber (Finite m e) => show_Z m ++ "e" ++ show_Z e
| ArgNumber _ => "NaN or Infinity"
| ArgChannel c => channel_id c
| ArgRole r => role_name r
| ArgMessage m => message_id m
| ArgUser u => user_id u
| ArgServer s => server_id s
end.

Definition echo : Run :=
RunHandler (fun menu => {| says := map said (CommandMenu.args menu); raises := None |}).

Definition echo_rest : RestRun :=
RestHandler (fun combined menu =>
  {| says := combined :: map said (CommandMenu.args menu); raises := None |}).


(** A node with a channel branch and a sub-command whose name is a
    channel mention. *)
Definition mention : string := "<#" ++ known_channel_id ++ ">".

Definition crowded : Command :=
mkCommand inherits (RunString "root")
  [(mention, named_leaf mention [] inherits (RunString "by name"))]
  (Some (leaf inherits (RunString "by channel")))
  None None None None None None None None AnyNull None.


(** A node whose [any] slot is a rest leaf that echoes. *)
Definition talker : Command :=
mkCommand inherits (RunString "root") []
  None None None None None None None None None
  (AnyRest {| rest_base := inherits; rest_run := echo_rest |}) None.

(** A node with a channel branch, a user branch and bare IDs resolved
    as channels. *)
Definition finder : Command :=
mkCommand inherits (RunString "root") []
  (Some (leaf inherits echo)) None None None (Some (leaf inherits echo)) None
  (Some (leaf inherits echo)) (Some id_channel) None AnyNull None.

Definition unknown_mention : string := "<#01GXNOWHERE000000000000000>".

(** A group that sets nothing, with a sub-command for level 3 and one
    that sets nothing either. *)
Definition panel : Command :=
group inherits
  [("admin", named_leaf "admin" ["sudo"] (requires 3) (RunString "done"));
   ("ping", named_leaf "ping" [] inherits (RunString "pong"))].

(** Two sub-commands as they are before a constructor names them, in a
    heap, and the [subcommands] option that lists them. *)
Definition unnamed_leaf (aliases : list string) (run : Run) : Command :=
mkCommand inherits run [] None None None None None None None None None AnyNull
  (Some (mkNamed aliases None)).

Definition shelf : gmap nat Command :=
{[ 1%nat := unnamed_leaf ["p"; "ls"] (RunString "pong");
   2%nat := unnamed_leaf ["ls"; "list"; "ping"] (RunString "items") ]}.

Definition shelf_entries : list (string * nat) := [("ping", 1%nat); ("list", 2%nat)].

(** What the constructor makes of them. *)
Definition shelf_table : JS.Map nat :=
Eval vm_compute in
  match Construct.subcommands_new (Some shelf_entries) shelf with
  | Return ((m, _), _) => m
  | Throw _ => []
  end.

Definition shelf_warnings : list string :=
Eval vm_compute in
  match Construct.subcommands_new (Some shelf_entries) shelf with
  | Return ((_, w), _) => w
  | Throw _ => []
  end.

Definition shelf_after : gmap nat Command :=
match Construct.subcommands_new (Some shelf_entries) shelf with
| Return (_, h) => h
| Throw _ => shelf
end.



End Sample.

(** ** More samples *)

Module Sample2.

(** The options of a command whose sub-commands are those of the shelf,
    with a channel branch that bare IDs are routed to. *)
Definition shelf_options : Options.t :=
{| Options.description := None; Options.usage := None; Options.permission := None;
   Options.nsfw := None; Options.channelType := None; Options.run := None;
   Options.subcommands := Some Sample.shelf_entries;
   Options.channel := Some (Sample.leaf Sample.inherits Sample.echo);
   Options.role := None; Options.emote := None; Options.message := None;
   Options.user := None; Options.guild := None; Options.id := Some id_channel;
   Options.number := None; Options.any := AnyNull |}.

Definition shelf_command : Command :=
match Construct.Command_new shelf_options Sample.shelf with
| Return (c, _, _, _) => c
| Throw _ => Sample.leaf Sample.inherits (RunString "")
end.

(** The accumulator [resolveInfo] starts with. *)
Definition info_start (header : string) (args : list string) : InfoMeta.t :=
{| InfoMeta.permission := 0; InfoMeta.nsfw := false; InfoMeta.channelType := TextChannel;
   InfoMeta.header := header; InfoMeta.args := []; InfoMeta.usage := EmptyString;
   InfoMeta.originalArgs := args |}.

End Sample2.

Module Sample3.

(** A client that has loaded the panel as [panel] and knows no bot. *)
Definition client : Handler.Client :=
{| Handler.commands := [("panel", Sample.panel)];
   Handler.client_user := Val "01GXBOT0000000000000000000";
   Handler.bot := fun _ => Null |}.

(** A listener that does nothing, as the one the module starts with. *)
Definition no_listener : Handler.ExecutedCommandInfo -> option Thrown := fun _ => None.

(** A direct message from a person. *)
Definition direct (text : string) : Handler.Incoming :=
{| Handler.author := Val Sample.someone;
   Handler.content := text;
   Handler.member := Undefined;
   Handler.channel := Val Sample.dm_channel;
   Handler.server := Undefined;
   Handler.sendMessage := fun _ => None |}.

(** A message from a person in a server channel. *)
Definition posted (text : string) : Handler.Incoming :=
{| Handler.author := Val Sample.someone;
   Handler.content := text;
   Handler.member := Val {| member_id := Sample.known_user_id |};
   Handler.channel := Val Sample.text_channel;
   Handler.server := Val Sample.home;
   Handler.sendMessage := fun _ => None |}.

(** A client that knows one bot. *)
Definition robots : Handler.Client :=
{| Handler.commands := [("panel", Sample.panel)];
   Handler.client_user := Val "01GXBOT0000000000000000000";
   Handler.bot :=
     fun user =>
       if String.eqb (user_id user) "01GXBOT0000000000000000001"
       then Val "01GXOWNER00000000000000000" else Null |}.

(** A direct message from that bot. *)
Definition from_robot (text : string) : Handler.Incoming :=
{| Handler.author := Val {| user_id := "01GXBOT0000000000000000001" |};
   Handler.content := text;
   Handler.member := Undefined;
   Handler.channel := Val Sample.dm_channel;
   Handler.server := Undefined;
   Handler.sendMessage := fun _ => None |}.

(** The settings of a launch that gives no permission level. *)
Definition no_levels : Interface.LaunchSettings.t :=
{| Interface.LaunchSettings.permissionLevels := Some [];
   Interface.LaunchSettings.getPrefix := None;
   Interface.LaunchSettings.categoryTransformer := None;
   Interface.LaunchSettings.useTSExtension := None |}.

End Sample3.

(** * Properties *)

(** ** The permission gate *)

Section GateFacts.
Context `{P : Platform}.

Lemma nsfw_refused_never (menu : CommandMenu.t) (metadata : Meta.t) :
  nsfw_refused menu metadata <> Return true.
Proof.
  unfold nsfw_refused, menu_channel_type.
  destruct (Meta.nsfw metadata); [|discriminate].
  destruct (CommandMenu.channel menu) as [| |c]; simpl; try discriminate.
  rewrite andb_false_r. discriminate.
Qed.

Lemma no_access_not_nsfw (level required : Z) : no_access level required <> must_be_nsfw.
Proof. unfold no_access, must_be_nsfw. simpl. discriminate. Qed.

(** C3: whatever the call context and the accumulator, the gate never
    answers with the NSFW message: the guard of that branch asks for
    the type of a channel that it then wants absent, so it is never
    true (on an absent channel reading the type fails, on a present
    one [!menu.channel] is false). *)
Theorem canExecute_never_nsfw (menu : CommandMenu.t) (metadata : Meta.t) :
  nsfw_refused menu metadata <> Return true
  /\ canExecute menu metadata <> Return (Some must_be_nsfw).
Proof.
  split; [apply nsfw_refused_never|].
  unfold canExecute.
  destruct (not_in_server menu metadata) as [[|]|]; simpl; try discriminate.
  destruct (not_in_dm menu metadata) as [[|]|]; simpl; try discriminate.
  pose proof (nsfw_refused_never menu metadata) as Hn.
  destruct (nsfw_refused menu metadata) as [[|]|]; simpl; try discriminate.
  - congruence.
  - destruct (negb _); [|discriminate].
    intros H.
    apply (no_access_not_nsfw
             (getPermissionLevel (CommandMenu.author menu) (CommandMenu.member menu))
             (Meta.permission metadata)).
    congruence.
Qed.

Lemma no_access_not_dm (level required : Z) : no_access level required <> must_be_dm.
Proof. unfold no_access, must_be_dm. simpl. discriminate. Qed.

(** What the second test of the gate does: a command for direct
    messages is refused with the channel-type message unless the channel
    is a direct message and both [menu.server] and [menu.member] are
    [null]; [undefined] does not count as absent. *)
Lemma canExecute_direct_message (menu : CommandMenu.t) (metadata : Meta.t) (c : Channel) :
  Meta.channelType metadata = DirectMessage ->
  CommandMenu.channel menu = Val c ->
  canExecute menu metadata = Return (Some must_be_dm) <->
  channel_type c <> DirectMessage
  \/ CommandMenu.server menu <> Null \/ CommandMenu.member menu <> Null.
Proof.
  intros Hct Hc. unfold canExecute, not_in_server, not_in_dm, nsfw_refused,
    menu_channel_type. rewrite Hct, Hc. cbn [CHANNEL_TYPE_eqb bind].
  destruct (channel_type c), (CommandMenu.server menu), (CommandMenu.member menu);
    cbn [CHANNEL_TYPE_eqb is_null negb orb andb bind];
    try (split; [intros _; tauto || (right; left; discriminate)
                              || (right; right; discriminate)
                              || (left; discriminate)
                |reflexivity]).
  all: destruct (Meta.nsfw metadata); cbn [bind truthy negb andb];
    destruct (negb (hasPermission _ _ _));
    (split; [intros H; exfalso; first [discriminate H
               |eapply no_access_not_dm; injection H as H; exact H]
            |intros [H|[H|H]]; contradiction]).
Qed.

End GateFacts.

(** C4, on the code: a command for direct messages only, called from a
    direct message the way the message handler builds the context
    (neither server nor member, both [undefined]), is refused with the
    channel-type message, whoever provides the permissions. *)
Theorem canExecute_refuses_direct_message (P : Platform) (header : string) :
  canExecute Sample.dm_menu
    (Meta.inherit (Sample.only_in DirectMessage) (defaultMetadata header []))
  = Return (Some must_be_dm).
Proof. reflexivity. Qed.

(** ** The dispatch *)

Section DispatchFacts.
Context `{P : Platform}.

(** What each branch of the chain tells about the node and the token. *)
Lemma select_inv (this : Command) (param : string) :
  match select this param with
  | sel_subcommand sub => JS.get (Cmd.subcommands this) param = Some sub
  | sel_channel next id =>
      Cmd.channel this = Some next /\ Patterns.channel param = Some id
  | sel_message next channelID messageID =>
      Cmd.message this = Some next
      /\ Patterns.messageLink param = Some (channelID, messageID)
  | sel_user next id => Cmd.user this = Some next /\ Patterns.user param = Some id
  | sel_id next idType id =>
      Cmd.id this = Some next /\ Cmd.idType this = Some idType
      /\ Patterns.id param = Some id
  | sel_number next => Cmd.number this = Some next /\ is_number_token param = true
  | sel_any next => Cmd.any this = AnyCommandOf next
  | sel_rest next => Cmd.any this = AnyRest next
  | sel_none => Cmd.any this = AnyNull
  end.
Proof.
  unfold select.
  destruct (JS.get (Cmd.subcommands this) param); [reflexivity|].
  destruct (Cmd.channel this), (Patterns.channel param); try (split; reflexivity).
  all: destruct (Cmd.message this), (Patterns.messageLink param) as [[]|];
    try (split; reflexivity).
  all: destruct (Cmd.user this), (Patterns.user param); try (split; reflexivity).
  all: destruct (Cmd.id this), (Cmd.idType this), (Patterns.id param);
    try (repeat split; reflexivity).
  all: destruct (Cmd.number this), (is_number_token param); try (split; reflexivity).
  all: destruct (Cmd.any this); reflexivity.
Qed.

Lemma matches_number (this : Command) (param : string) :
  matches this param by_number = present (Cmd.number this) && is_number_token param.
Proof. unfold matches, is_number_token. now rewrite !andb_assoc. Qed.

(** The chain of the code tries the steps in the order of the table. *)
Lemma select_first_match (this : Command) (param : string) :
  kind_of (select this param) = first_match this param.
Proof.
  unfold first_match, priority, List.find.
  rewrite matches_number. unfold matches, select, JS.has.
  destruct (JS.get (Cmd.subcommands this) param); [reflexivity|].
  destruct (Cmd.channel this), (Patterns.channel param); try reflexivity.
  all: destruct (Cmd.message this), (Patterns.messageLink param) as [[]|];
    try reflexivity.
  all: destruct (Cmd.user this), (Patterns.user param); try reflexivity.
  all: destruct (Cmd.id this), (Cmd.idType this), (Patterns.id param); try reflexivity.
  all: destruct (Cmd.number this), (is_number_token param); try reflexivity.
  all: destruct (Cmd.any this); reflexivity.
Qed.

(** C1: on a non-empty token list, [execute] takes the head token and
    runs the branch of the first step of the table that the token fits
    - name or alias, channel mention, message link, user mention, bare
    ID, number, [any] as a command, [any] as a rest leaf - and no other;
    with no step fitting it answers that no command sequence matches.
    A token that is the name of a sub-command goes to that sub-command
    even when it also is a channel mention that the node accepts. *)
Theorem execute_first_match_wins (this : Command) (param : string) (args : list string)
  (st : State.t) :
  let st' := State.with_metadata (Meta.inherit (Cmd.base this)) st in
  match first_match this param with
  | Some by_name =>
      exists sub, JS.get (Cmd.subcommands this) param = Some sub
        /\ execute (param :: args) this st = execute args sub (State.push_symbol param st')
  | Some by_channel_mention =>
      exists next id, Cmd.channel this = Some next /\ Patterns.channel param = Some id
        /\ execute (param :: args) this st = on_channel (execute args) next id st'
  | Some by_message_link =>
      exists next channelID messageID, Cmd.message this = Some next
        /\ Patterns.messageLink param = Some (channelID, messageID)
        /\ execute (param :: args) this st
           = on_message (execute args) next channelID messageID st'
  | Some by_user_mention =>
      exists next id, Cmd.user this = Some next /\ Patterns.user param = Some id
        /\ execute (param :: args) this st = on_user (execute args) next id st'
  | Some by_bare_id =>
      exists next idType id, Cmd.id this = Some next /\ Cmd.idType this = Some idType
        /\ Patterns.id param = Some id
        /\ execute (param :: args) this st = on_id (execute args) next idType id st'
  | Some by_number =>
      exists next, Cmd.number this = Some next
        /\ execute (param :: args) this st = on_number (execute args) next param st'
  | Some by_any_command =>
      exists next, Cmd.any this = AnyCommandOf next
        /\ execute (param :: args) this st = on_any (execute args) next param st'
  | Some by_any_rest =>
      exists next, Cmd.any this = AnyRest next
        /\ execute (param :: args) this st = on_rest next param args st'
  | None => execute (param :: args) this st = no_match param st'
  end
  /\ (JS.has (Cmd.subcommands this) param = true ->
      matches this param by_channel_mention = true ->
      first_match this param = Some by_name).
Proof.
  intros st'. split.
  - rewrite <- select_first_match.
    pose proof (select_inv this param) as Hinv.
    change (execute (param :: args) this st) with
      (match select this param with
       | sel_subcommand sub => execute args sub (State.push_symbol param st')
       | sel_channel next id => on_channel (execute args) next id st'
       | sel_message next channelID messageID =>
           on_message (execute args) next channelID messageID st'
       | sel_user next id => on_user (execute args) next id st'
       | sel_id next idType id => on_id (execute args) next idType id st'
       | sel_number next => on_number (execute args) next param st'
       | sel_any next => on_any (execute args) next param st'
       | sel_rest next => on_rest next param args st'
       | sel_none => no_match param st'
       end).
    destruct (select this param); simpl; eauto 10.
    + destruct Hinv as [? ?]; eauto 10.
    + destruct Hinv as [? ?]; eauto 10.
    + destruct Hinv as [? ?]; eauto 10.
    + destruct Hinv as (? & ? & ?); eauto 10.
    + destruct Hinv as [? ?]; eauto 10.
  - intros Hhas _. unfold first_match, priority, List.find.
    change (matches this param by_name) with (JS.has (Cmd.subcommands this) param).
    now rewrite Hhas.
Qed.

End DispatchFacts.

Lemma execute_first_match_wins_witness :
  JS.has (Cmd.subcommands Sample.crowded) Sample.mention = true
  /\ matches Sample.crowded Sample.mention by_channel_mention = true
  /\ first_match Sample.crowded Sample.mention = Some by_name.
Proof.
  split; [reflexivity|]. split; [reflexivity|].
  apply (proj2 (execute_first_match_wins (P := Sample.platform) Sample.crowded
                  Sample.mention [] (Sample.start Sample.server_menu "find" [])));
    reflexivity.
Defined.

Section BranchFacts.
Context `{P : Platform}.



(** C5: at a node whose [any] slot is a rest leaf, a token that no
    typed branch takes is put back in front of the tokens left; the
    rest leaf is called with all of them joined by single spaces, after
    all of them have been pushed on [menu.args], and its result is the
    result of [execute]: nothing descends further.  A handler of the
    leaf that the gate lets run gets the joined string and the menu
    with the tokens. *)
Theorem rest_leaf_gets_everything (this : Command) (next : RestCommand)
  (param : string) (args : list string) (st : State.t) :
  Cmd.any this = AnyRest next ->
  reaches_any this param = true ->
  let combined := join " " (param :: args) in
  let st' :=
    State.push_args (map ArgString (param :: args))
      (State.push_symbol "<...>"
         (State.with_metadata (Meta.inherit (Cmd.base this)) st)) in
  let st'' := State.with_metadata (Meta.inherit (rest_base next)) st' in
  execute (param :: args) this st = RestCommand_execute next combined st'
  /\ CommandMenu.args (State.menu st'')
     = (CommandMenu.args (State.menu st) ++ map ArgString (param :: args))%list
  /\ (forall handler,
        rest_run next = RestHandler handler ->
        canExecute (State.menu st'') (State.metadata st'') = Return None ->
        execute (param :: args) this st
        = run_handler (handler combined (State.menu st'')) st'').
Proof.
  intros Hany Hreach combined st' st''.
  assert (Hsel : select this param = sel_rest next).
  { pose proof (select_inv this param) as Hinv. revert Hreach Hinv.
    unfold reaches_any. destruct (select this param); try discriminate; congruence. }
  assert (Hexec : execute (param :: args) this st = RestCommand_execute next combined st').
  { simpl execute. rewrite Hsel. reflexivity. }
  split; [exact Hexec|]. split; [reflexivity|].
  intros handler Hrun Hgate. rewrite Hexec. unfold RestCommand_execute.
  fold st''. rewrite Hgate, Hrun. reflexivity.
Qed.

(** C6: when the token takes a branch that looks its capture up and the
    lookup answers with a not-found message, [execute] returns that very
    message and goes no further: nothing is pushed on [menu.args],
    nothing is sent and the tokens left are not looked at. *)
Theorem lookup_failure_is_final (this : Command) (param : string)
  (args : list string) (st : State.t) (notFound : string) :
  lookup_fails (select this param) (State.menu st) notFound ->
  fst (execute (param :: args) this st) = Return (Some notFound)
  /\ State.menu (snd (execute (param :: args) this st)) = State.menu st
  /\ State.sent (snd (execute (param :: args) this st)) = State.sent st
  /\ execute (param :: args) this st = execute [param] this st.
Proof.
  intros Hfail. simpl execute.
  destruct (select this param) as [| next id | next c m | next id | next ty id | | | |];
    cbv beta iota delta [lookup_fails] in Hfail; try contradiction.
  - unfold on_channel. rewrite Hfail. auto.
  - unfold on_message. rewrite Hfail. auto.
  - unfold on_user. rewrite Hfail. auto.
  - destruct ty; try contradiction; unfold on_id;
      cbn [State.menu State.push_symbol State.with_metadata]; rewrite Hfail; auto.
Qed.

End BranchFacts.


Lemma rest_leaf_gets_everything_witness :
  Cmd.any Sample.talker
  = AnyRest {| rest_base := Sample.inherits; rest_run := Sample.echo_rest |}
  /\ reaches_any Sample.talker "a" = true
  /\ execute (P := Sample.platform) ["a"; "b"; "c"] Sample.talker
       (Sample.start Sample.server_menu "say" ["a"; "b"; "c"])
     = (Return None,
        {| State.menu := CommandMenu.push [ArgString "a"; ArgString "b"; ArgString "c"]
                           Sample.server_menu;
           State.metadata := Meta.push "<...>" (defaultMetadata "say" ["a"; "b"; "c"]);
           State.sent := ["a b c"; "a"; "b"; "c"];
           State.console_error := [] |}).
Proof.
  split; [reflexivity|]. split; [reflexivity|].
  destruct (rest_leaf_gets_everything (P := Sample.platform) Sample.talker
              {| rest_base := Sample.inherits; rest_run := Sample.echo_rest |}
              "a" ["b"; "c"] (Sample.start Sample.server_menu "say" ["a"; "b"; "c"])
              eq_refl eq_refl) as (_ & _ & H).
  rewrite (H _ eq_refl eq_refl). reflexivity.
Defined.

Lemma lookup_failure_is_final_witness :
  lookup_fails (P := Sample.platform) (select Sample.finder Sample.unknown_mention)
    Sample.server_menu "No channel found by the ID of `01GXNOWHERE000000000000000`!"
  /\ fst (execute (P := Sample.platform) [Sample.unknown_mention; "next"] Sample.finder
            (Sample.start Sample.server_menu "find" [Sample.unknown_mention; "next"]))
     = Return (Some "No channel found by the ID of `01GXNOWHERE000000000000000`!").
Proof.
  split; [reflexivity|].
  apply (lookup_failure_is_final (P := Sample.platform) Sample.finder
           Sample.unknown_mention ["next"]
           (Sample.start Sample.server_menu "find" [Sample.unknown_mention; "next"])).
  reflexivity.
Defined.

(** ** Failures *)


(** *** The introspection of a tree whose sub-commands are named *)





Section FailureFacts.
Context `{P : Platform}.









End FailureFacts.



(** ** Inherited metadata *)

Lemma deepest_cons {A} (field : BaseCommand.t -> option A) (b : BaseCommand.t)
  (path : list BaseCommand.t) :
  deepest field (b :: path)
  = match deepest field path with Some v => Some v | None => field b end.
Proof.
  unfold deepest. simpl rev. rewrite omap_app.
  destruct (omap field (rev path)); simpl; [|reflexivity].
  destruct (field b); reflexivity.
Qed.

Lemma deepest_snoc {A} (field : BaseCommand.t -> option A) (b : BaseCommand.t)
  (path : list BaseCommand.t) :
  deepest field (path ++ [b])
  = match field b with Some v => Some v | None => deepest field path end.
Proof.
  unfold deepest. rewrite rev_app_distr. simpl. destruct (field b); reflexivity.
Qed.

Lemma deepest_none {A} (field : BaseCommand.t -> option A) (path : list BaseCommand.t) :
  Forall (fun b => field b = None) path -> deepest field path = None.
Proof.
  induction 1 as [|b path Hb _ IH]; [reflexivity|].
  rewrite deepest_cons, IH. exact Hb.
Qed.

Lemma overridden_nil (r : Rules) : overridden [] r = r.
Proof. destruct r as [[p n] c]. reflexivity. Qed.

Lemma overridden_cons (b : BaseCommand.t) (path : list BaseCommand.t) (r : Rules) :
  overridden (b :: path) r = overridden path (overridden [b] r).
Proof.
  unfold overridden. rewrite !deepest_cons. unfold deepest at 4 5 6. simpl.
  destruct (deepest permission_override path), (deepest BaseCommand.nsfw path),
    (deepest BaseCommand.channelType path), (permission_override b),
    (BaseCommand.nsfw b), (BaseCommand.channelType b); reflexivity.
Qed.

(** Each of the three fields is set on its own. *)
Lemma Meta_rules_inherit (b : BaseCommand.t) (m : Meta.t) :
  Meta_rules (Meta.inherit b m) = overridden [b] (Meta_rules m).
Proof.
  unfold Meta_rules, overridden, deepest, permission_override, Meta.inherit. simpl.
  destruct (BaseCommand.permission b =? -1), (BaseCommand.nsfw b),
    (BaseCommand.channelType b); reflexivity.
Qed.

Lemma InfoMeta_rules_inherit (b : BaseCommand.t) (m : InfoMeta.t) :
  (InfoMeta.permission (InfoMeta.inherit b m), InfoMeta.nsfw (InfoMeta.inherit b m),
   InfoMeta.channelType (InfoMeta.inherit b m))
  = overridden [b] (InfoMeta.permission m, InfoMeta.nsfw m, InfoMeta.channelType m).
Proof.
  unfold overridden, deepest, permission_override, InfoMeta.inherit. simpl.
  destruct (BaseCommand.permission b =? -1), (BaseCommand.nsfw b),
    (BaseCommand.channelType b); reflexivity.
Qed.

Section MetadataFacts.
Context `{P : Platform}.

Lemma send_template_metadata (template : string) (st : State.t) :
  State.metadata (snd (send_template template st)) = State.metadata st.
Proof.
  unfold send_template. destruct (CommandMenu.author (State.menu st)); try reflexivity.
  destruct (CommandMenu.send _ _); reflexivity.
Qed.

Lemma run_handler_metadata (outcome : Effects) (st : State.t) :
  State.metadata (snd (run_handler outcome st)) = State.metadata st.
Proof. unfold run_handler. destruct (raises outcome); reflexivity. Qed.

Lemma run_command_metadata (run : Run) (st : State.t) :
  State.metadata (snd (run_command run st)) = State.metadata st.
Proof.
  unfold run_command. destruct (canExecute _ _) as [v|]; [|reflexivity].
  destruct (rejected v); [reflexivity|].
  destruct run; [apply send_template_metadata|apply run_handler_metadata].
Qed.

Lemma RestCommand_execute_metadata (this : RestCommand) (combined : string) (st : State.t) :
  State.metadata (snd (RestCommand_execute this combined st))
  = Meta.inherit (rest_base this) (State.metadata st).
Proof.
  unfold RestCommand_execute. destruct (canExecute _ _) as [v|]; [|reflexivity].
  destruct (rejected v); [reflexivity|].
  destruct (rest_run this);
    [rewrite send_template_metadata|rewrite run_handler_metadata]; reflexivity.
Qed.

Lemma exec_path_push (xs : list Arg) (args : list string) :
  forall (this : Command) (menu : CommandMenu.t),
    exec_path args this (CommandMenu.push xs menu) = exec_path args this menu.
Proof.
  induction args as [|param args IH]; intros this menu; [reflexivity|].
  simpl. change (exec_next this param (CommandMenu.push xs menu))
    with (exec_next this param menu).
  destruct (exec_next this param menu) as [[next|next]|]; [|reflexivity..].
  now rewrite IH.
Qed.

(** The rules a call of [execute] leaves in the accumulator are those
    of the path it went through. *)
Lemma execute_rules (args : list string) :
  forall (this : Command) (st : State.t),
    Meta_rules (State.metadata (snd (execute args this st)))
    = overridden (exec_path args this (State.menu st)) (Meta_rules (State.metadata st)).
Proof.
  induction args as [|param args IH]; intros this st.
  - simpl execute. rewrite run_command_metadata. apply Meta_rules_inherit.
  - simpl execute. cbn [exec_path]. rewrite overridden_cons, <- Meta_rules_inherit.
    set (st' := State.with_metadata (Meta.inherit (Cmd.base this)) st).
    change (Meta.inherit (Cmd.base this) (State.metadata st)) with (State.metadata st').
    change (State.menu st) with (State.menu st').
    clearbody st'. unfold exec_next.
    destruct (select this param) as [sub|next id|next c m|next id|next ty id|next|next|next|].
    + rewrite IH. reflexivity.
    + unfold on_channel. destruct (getChannelByID id);
        [rewrite IH; cbn [State.menu State.push_args State.push_symbol State.with_metadata];
         rewrite exec_path_push; reflexivity
        |now rewrite overridden_nil].
    + unfold on_message. destruct (getMessageByID _ m);
        [rewrite IH; cbn [State.menu State.push_args State.push_symbol State.with_metadata];
         rewrite exec_path_push; reflexivity
        |now rewrite overridden_nil].
    + unfold on_user. destruct (getUserByID id);
        [rewrite IH; cbn [State.menu State.push_args State.push_symbol State.with_metadata];
         rewrite exec_path_push; reflexivity
        |now rewrite overridden_nil].
    + unfold on_id. cbn [State.menu State.push_symbol State.with_metadata].
      destruct ty.
      * destruct (getChannelByID id);
          [rewrite IH; cbn [State.menu State.push_args State.push_symbol State.with_metadata];
           rewrite exec_path_push; reflexivity
          |now rewrite overridden_nil].
      * destruct (CommandMenu.server (State.menu st')) as [| |server];
          try (now rewrite overridden_nil).
        destruct (roles server) as [| |table]; try (now rewrite overridden_nil).
        destruct (JS.get table id); [|now rewrite overridden_nil].
        rewrite IH; cbn [State.menu State.push_args State.push_symbol State.with_metadata];
          rewrite exec_path_push; reflexivity.
      * now rewrite overridden_nil.
      * destruct (getMessageByID _ id);
          [rewrite IH; cbn [State.menu State.push_args State.push_symbol State.with_metadata];
           rewrite exec_path_push; reflexivity
          |now rewrite overridden_nil].
      * destruct (getUserByID id);
          [rewrite IH; cbn [State.menu State.push_args State.push_symbol State.with_metadata];
           rewrite exec_path_push; reflexivity
          |now rewrite overridden_nil].
      * destruct (getGuildByID id);
          [rewrite IH; cbn [State.menu State.push_args State.push_symbol State.with_metadata];
           rewrite exec_path_push; reflexivity
          |now rewrite overridden_nil].
    + unfold on_number. rewrite IH.
      cbn [State.menu State.push_args State.push_symbol State.with_metadata].
      rewrite exec_path_push. reflexivity.
    + unfold on_any. rewrite IH.
      cbn [State.menu State.push_args State.push_symbol State.with_metadata].
      rewrite exec_path_push. reflexivity.
    + unfold on_rest. rewrite RestCommand_execute_metadata.
      rewrite Meta_rules_inherit. reflexivity.
    + now rewrite overridden_nil.
Qed.

End MetadataFacts.

(** The rules a description shows are those of the path to the node it
    describes. *)
Lemma resolveInfoInternal_rules (args : list string) :
  forall (this : Command) (metadata : InfoMeta.t) (i : CommandInfo.t),
    fst (resolveInfoInternal args this metadata) = Return (info i) ->
    exists path, info_path args this = Some path
      /\ CommandInfo_rules i
         = overridden path
             (InfoMeta.permission metadata, InfoMeta.nsfw metadata,
              InfoMeta.channelType metadata).
Proof.
  induction args as [|param args IH]; intros this metadata i.
  - simpl. unfold describe. destruct (keyed_entries _ _); simpl; [|discriminate].
    intros [= <-]. exists [Cmd.base this]. split; [reflexivity|].
    apply InfoMeta_rules_inherit.
  - cbn [resolveInfoInternal info_path]. unfold info_next, into.
    assert (Hnext : forall next label,
      fst (resolveInfoInternal args next
             (InfoMeta.push label (InfoMeta.inherit (Cmd.base this) metadata)))
      = Return (info i) ->
      exists path, cons (Cmd.base this) <$> info_path args next = Some path
        /\ CommandInfo_rules i
           = overridden path
               (InfoMeta.permission metadata, InfoMeta.nsfw metadata,
                InfoMeta.channelType metadata)).
    { intros next label H. destruct (IH _ _ _ H) as (path & -> & Hr).
      exists (Cmd.base this :: path). split; [reflexivity|].
      rewrite overridden_cons, <- InfoMeta_rules_inherit. exact Hr. }
    repeat match goal with
    | |- context [if String.eqb param ?s then _ else _] =>
        destruct (String.eqb param s)
    end;
    try match goal with
    | |- context [match ?branch with Some _ => _ | None => _ end] =>
        destruct branch; simpl; [apply Hnext|discriminate]
    end.
    + destruct (Cmd.any this); simpl; [discriminate|apply Hnext|discriminate].
    + destruct (Cmd.any this) as [|c|r]; simpl; [discriminate|discriminate|].
      intros [= <-]. exists [Cmd.base this; rest_base r]. split; [reflexivity|].
      rewrite overridden_cons, <- InfoMeta_rules_inherit.
      exact (InfoMeta_rules_inherit (rest_base r)
               (InfoMeta.push "<...>" (InfoMeta.inherit (Cmd.base this) metadata))).
Qed.

Section MetadataTheorem.
Context `{P : Platform}.

(** C2: [execute] and [resolveInfoInternal] first set the permission,
    the NSFW flag and the channel type of the accumulator from the node,
    each on its own, and only then look at the tokens.  So a call
    without tokens runs the gate on the rules of the node itself; the
    rules that a call leaves, or that a description shows, are for each
    field those of the deepest node of the path that sets it: a child
    that sets the permission decides it whatever its parents do, and a
    field that no node of the path sets keeps the value the walk started
    with, which is the root default (0, not NSFW, text channel). *)
Theorem overrides_follow_the_path :
  (forall b m, Meta_rules (Meta.inherit b m) = overridden [b] (Meta_rules m))
  /\ (forall this st,
        execute [] this st
        = run_command (Cmd.run this)
            (State.with_metadata (Meta.inherit (Cmd.base this)) st))
  /\ (forall args this st,
        Meta_rules (State.metadata (snd (execute args this st)))
        = overridden (exec_path args this (State.menu st))
            (Meta_rules (State.metadata st)))
  /\ (forall args this header i,
        fst (resolveInfo args this header) = Return (info i) ->
        exists path, info_path args this = Some path
          /\ CommandInfo_rules i = overridden path default_rules)
  /\ (forall header args, Meta_rules (defaultMetadata header args) = default_rules)
  /\ (forall path child start,
        BaseCommand.permission child <> -1 ->
        fst (fst (overridden (path ++ [child]) start)) = BaseCommand.permission child)
  /\ (forall path start,
        (Forall (fun b => BaseCommand.permission b = -1) path ->
         fst (fst (overridden path start)) = fst (fst start))
        /\ (Forall (fun b => BaseCommand.nsfw b = None) path ->
            snd (fst (overridden path start)) = snd (fst start))
        /\ (Forall (fun b => BaseCommand.channelType b = None) path ->
            snd (overridden path start) = snd start)).
Proof.
  split; [exact Meta_rules_inherit|]. split; [reflexivity|].
  split; [intros; apply execute_rules|].
  split; [intros args this header i H; exact (resolveInfoInternal_rules _ _ _ _ H)|].
  split; [reflexivity|]. split.
  - intros path child start Hp. unfold overridden. simpl. rewrite deepest_snoc.
    unfold permission_override at 1.
    destruct (BaseCommand.permission child =? -1) eqn:E; [|reflexivity].
    apply Z.eqb_eq in E. contradiction.
  - intros path start. unfold overridden. simpl. split; [|split]; intros H.
    + rewrite deepest_none; [reflexivity|].
      eapply Forall_impl; [exact H|]. intros b Hb. simpl in Hb.
      unfold permission_override. now rewrite Hb.
    + now rewrite deepest_none.
    + now rewrite deepest_none.
Qed.

End MetadataTheorem.

Lemma overrides_follow_the_path_witness :
  (exists i, fst (resolveInfo ["admin"] Sample.panel "help") = Return (info i)
     /\ CommandInfo_rules i = (3, false, TextChannel))
  /\ (exists i, fst (resolveInfo ["ping"] Sample.panel "help") = Return (info i)
     /\ CommandInfo_rules i = default_rules)
  /\ BaseCommand.permission (Sample.requires 3) <> -1
  /\ fst (fst (overridden ([Sample.inherits] ++ [Sample.requires 3]) default_rules)) = 3
  /\ Forall (fun b => BaseCommand.permission b = -1) [Sample.inherits; Sample.inherits]
  /\ fst (fst (overridden [Sample.inherits; Sample.inherits] default_rules)) = 0.
Proof.
  destruct (@overrides_follow_the_path Sample.platform)
    as (_ & _ & _ & Hinfo & _ & Hchild & Hnone).
  split; [|split; [|split; [|split; [|split]]]].
  - eexists. split; [reflexivity|].
    destruct (Hinfo ["admin"] Sample.panel "help" _ eq_refl) as (path & Hpath & ->).
    injection Hpath as <-. reflexivity.
  - eexists. split; [reflexivity|].
    destruct (Hinfo ["ping"] Sample.panel "help" _ eq_refl) as (path & Hpath & ->).
    injection Hpath as <-. reflexivity.
  - discriminate.
  - apply Hchild. discriminate.
  - repeat constructor.
  - apply (proj1 (Hnone [Sample.inherits; Sample.inherits] default_rules)).
    repeat constructor.
Defined.

(** ** Aliases *)

Section MapFacts.
Context {V : Type}.

Lemma get_set (m : JS.Map V) (k k' : string) (v : V) :
  JS.get (JS.set m k v) k' = if String.eqb k k' then Some v else JS.get m k'.
Proof.
  induction m as [|[k0 v0] m IH]; simpl.
  - destruct (String.eqb k k'); reflexivity.
  - destruct (String.eqb_spec k0 k) as [->|Hne]; simpl.
    + destruct (String.eqb k k'); reflexivity.
    + rewrite IH. destruct (String.eqb_spec k0 k') as [->|Hne'];
        destruct (String.eqb_spec k k') as [->|Hne'']; congruence.
Qed.

Lemma get_app (l l' : JS.Map V) (k : string) :
  JS.get (l ++ l')%list k = match JS.get l k with Some v => Some v | None => JS.get l' k end.
Proof.
  induction l as [|[k0 v0] l IH]; simpl; [reflexivity|].
  destruct (String.eqb k0 k); [reflexivity|exact IH].
Qed.

Lemma get_not_in (l : JS.Map V) (k : string) :
  ~ In k (map fst l) -> JS.get l k = None.
Proof.
  induction l as [|[k0 v0] l IH]; simpl; [reflexivity|].
  intros Hn. destruct (String.eqb_spec k0 k) as [->|Hne]; [tauto|].
  apply IH. tauto.
Qed.

Lemma get_in (l : JS.Map V) (k : string) :
  In k (map fst l) -> JS.get l k <> None.
Proof.
  induction l as [|[k0 v0] l IH]; simpl; [tauto|].
  intros [->|Hin]; [rewrite String.eqb_refl; discriminate|].
  destruct (String.eqb k0 k); [discriminate|apply IH; exact Hin].
Qed.

Lemma get_nodup_in (l : JS.Map V) (k : string) (v : V) :
  List.NoDup (map fst l) -> In (k, v) l -> JS.get l k = Some v.
Proof.
  induction l as [|[k0 v0] l IH]; simpl; [tauto|].
  intros Hnd [[= -> ->]|Hin]; [now rewrite String.eqb_refl|].
  inversion Hnd as [|? ? Hk0 Hnd']; subst.
  destruct (String.eqb_spec k0 k) as [->|Hne]; [|apply IH; assumption].
  exfalso. apply Hk0. apply (in_map fst) in Hin. exact Hin.
Qed.

(** A later binding of a key that is taken changes nothing. *)
Lemma get_snoc_taken (l : JS.Map V) (k : string) (v : V) :
  JS.get l k <> None -> forall k', JS.get (l ++ [(k, v)])%list k' = JS.get l k'.
Proof.
  intros Hk k'. rewrite get_app. destruct (JS.get l k') eqn:E; [reflexivity|].
  simpl. destruct (String.eqb_spec k k') as [->|]; [contradiction|reflexivity].
Qed.

End MapFacts.

Lemma includes_In (l : list string) (x : string) :
  JS.includes l x = true <-> In x l.
Proof.
  unfold JS.includes. rewrite existsb_exists. split.
  - intros (y & Hy & E). apply String.eqb_eq in E. now subst.
  - intros H. exists x. split; [exact H|apply String.eqb_refl].
Qed.

(** The first loop files every sub-command under its name. *)
Lemma get_set_base (entries : list (string * nat)) (k : string) :
  List.NoDup (map fst entries) ->
  JS.get (Construct.set_base entries) k = JS.get entries k.
Proof.
  unfold Construct.set_base.
  assert (H : forall m, List.NoDup (map fst entries) ->
            JS.get (fold_left (fun m e => JS.set m (fst e) (snd e)) entries m) k
            = match JS.get entries k with Some v => Some v | None => JS.get m k end).
  { induction entries as [|[k0 v0] entries IH]; intros m Hnd; simpl; [reflexivity|].
    inversion Hnd as [|? ? Hk0 Hnd']; subst.
    rewrite IH by exact Hnd'. rewrite get_set. simpl.
    destruct (String.eqb_spec k0 k) as [->|Hne]; [|reflexivity].
    now rewrite (get_not_in entries k Hk0). }
  intros Hnd. rewrite H by exact Hnd. destruct (JS.get entries k); reflexivity.
Qed.

Section EnterFacts.
Variable base : list string.

Lemma step_covers d t : covers base t -> covers base (step base d t).
Proof.
  intros Hc a Ha. unfold step. simpl.
  destruct (JS.includes base (fst d)); [apply Hc, Ha|].
  destruct (JS.has (fst t) (fst d)); [apply Hc, Ha|]. simpl.
  rewrite get_set. destruct (String.eqb (fst d) a); [discriminate|apply Hc, Ha].
Qed.

Lemma step_get d t :
  covers base t ->
  forall k, JS.get (fst (step base d t)) k = JS.get (fst t ++ [binding d])%list k.
Proof.
  intros Hc k. unfold step. simpl.
  destruct (JS.includes base (fst d)) eqn:Hi.
  - simpl. symmetry. apply get_snoc_taken. apply Hc. now apply includes_In.
  - unfold JS.has. destruct (JS.get (fst t) (fst d)) eqn:Hg; simpl.
    + symmetry. apply get_snoc_taken. congruence.
    + rewrite get_set, get_app. unfold binding. simpl.
      destruct (String.eqb_spec (fst d) k) as [<-|Hne]; [now rewrite Hg|].
      destruct (JS.get (fst t) k); reflexivity.
Qed.

Lemma step_warnings d t :
  (forall w, In w (snd t) -> In w (snd (step base d t)))
  /\ (JS.get (fst t) (fst d) <> None ->
      In (Construct.warn_base (fst d) (fst (snd d))) (snd (step base d t))
      \/ In (Construct.warn_duplicate (fst d) (fst (snd d))) (snd (step base d t))).
Proof.
  unfold step. simpl. unfold JS.has.
  destruct (JS.includes base (fst d)); simpl.
  - split; [intros w Hw; apply in_or_app; now left|].
    intros _. left. apply in_or_app. right. now left.
  - destruct (JS.get (fst t) (fst d)); simpl.
    + split; [intros w Hw; apply in_or_app; now left|].
      intros _. right. apply in_or_app. right. now left.
    + split; [auto|]. intros H. now contradiction H.
Qed.

Lemma enter_covers decls : forall t, covers base t -> covers base (enter base decls t).
Proof.
  induction decls as [|d decls IH]; intros t Hc; [exact Hc|].
  cbn [enter]. apply IH. exact (step_covers d t Hc).
Qed.

(** The table after the loop: the first binding of a key stands. *)
Lemma enter_get decls :
  forall t, covers base t ->
  forall k, JS.get (fst (enter base decls t)) k
            = JS.get (fst t ++ map binding decls)%list k.
Proof.
  induction decls as [|d decls IH]; intros t Hc k.
  - simpl. now rewrite app_nil_r.
  - cbn [enter map]. fold (step base d t).
    rewrite IH by exact (step_covers d t Hc).
    rewrite !get_app, step_get by exact Hc. rewrite get_app. simpl.
    destruct (JS.get (fst t) k); [reflexivity|].
    destruct (String.eqb (fst d) k); reflexivity.
Qed.

Lemma enter_keeps_warnings decls :
  forall t w, In w (snd t) -> In w (snd (enter base decls t)).
Proof.
  induction decls as [|d decls IH]; intros t w Hw; [exact Hw|].
  cbn [enter]. apply IH. exact (proj1 (step_warnings d t) w Hw).
Qed.

(** A declaration whose alias is taken when its turn comes is warned
    about. *)
Lemma enter_warns decls :
  forall t, covers base t ->
  forall before d after,
    decls = (before ++ d :: after)%list ->
    JS.get (fst t ++ map binding before)%list (fst d) <> None ->
    In (Construct.warn_base (fst d) (fst (snd d))) (snd (enter base decls t))
    \/ In (Construct.warn_duplicate (fst d) (fst (snd d))) (snd (enter base decls t)).
Proof.
  induction decls as [|d0 decls IH]; intros t Hc before d after Hsplit Htaken.
  - destruct before; discriminate.
  - cbn [enter]. fold (step base d0 t).
    destruct before as [|b before]; simpl in Hsplit; injection Hsplit as -> ->.
    + simpl in Htaken. rewrite app_nil_r in Htaken.
      destruct (proj2 (step_warnings d t) Htaken) as [H|H];
        [left|right]; apply enter_keeps_warnings; exact H.
    + apply (IH (step base b t) (step_covers b t Hc) before d after eq_refl).
      rewrite get_app, step_get by exact Hc.
      simpl in Htaken. rewrite get_app in Htaken. rewrite get_app.
      simpl. simpl in Htaken.
      destruct (JS.get (fst t) (fst d)); [discriminate|].
      destruct (String.eqb (fst b) (fst d)); exact Htaken.
Qed.

Lemma set_aliases_enter name subcmd aliases :
  forall t,
    Construct.set_aliases base name subcmd aliases t
    = enter base (map (fun alias => (alias, (name, subcmd))) aliases) t.
Proof.
  induction aliases as [|a aliases IH]; intros t; [reflexivity|].
  simpl. rewrite IH. reflexivity.
Qed.

Lemma enter_app d1 d2 :
  forall t, enter base (d1 ++ d2) t = enter base d2 (enter base d1 t).
Proof.
  induction d1 as [|d d1 IH]; intros t; [reflexivity|]. simpl. apply IH.
Qed.

End EnterFacts.

(** *** The heap *)

Lemma named_with_named (n : option NamedPart) (c : Command) :
  Cmd.named (Cmd.with_named n c) = n.
Proof. destruct c. reflexivity. Qed.

(** Naming a sub-command leaves the aliases of all of them as they are. *)
Lemma alias_declarations_insert (h : gmap nat Command) (subcmd : nat)
  (object : Command) (n n' : NamedPart) (entries : list (string * nat)) :
  h !! subcmd = Some object -> Cmd.named object = Some n -> aliases n' = aliases n ->
  alias_declarations (<[subcmd := Cmd.with_named (Some n') object]> h) entries
  = alias_declarations h entries.
Proof.
  intros Hl Hn Ha. unfold alias_declarations. apply flat_map_ext. intros [name r]. simpl.
  destruct (decide (subcmd = r)) as [<-|Hne].
  - rewrite lookup_insert_eq, Hl, named_with_named, Hn, Ha. reflexivity.
  - rewrite lookup_insert_ne by exact Hne. reflexivity.
Qed.

(** When the second loop of the constructor comes to its end, it has
    entered the aliases of the sub-commands one after the other. *)
Lemma name_and_alias_enter (base : list string) (entries : list (string * nat)) :
  forall t h t' h',
    Construct.name_and_alias base entries t h = Return (t', h') ->
    t' = enter base (alias_declarations h entries) t.
Proof.
  induction entries as [|[name subcmd] entries IH]; intros t h t' h'.
  - simpl. now intros [= <- <-].
  - cbn [Construct.name_and_alias].
    destruct (h !! subcmd) as [object|] eqn:Hl; [|intros Hd; discriminate Hd].
    destruct (Cmd.named object) as [n|] eqn:Hn; [|intros Hd; discriminate Hd].
    unfold Cmd.set_name. destruct (originalCommandName n); cbn [bind aliases];
      [intros Hd; discriminate Hd|].
    intros H. apply IH in H.
    rewrite (alias_declarations_insert h subcmd object n
               (mkNamed (aliases n) (Some name)) entries Hl Hn eq_refl) in H.
    unfold alias_declarations. cbn [flat_map fst snd]. rewrite Hl, Hn.
    rewrite enter_app, <- set_aliases_enter. exact H.
Qed.

Lemma alias_declarations_in (h : gmap nat Command) (entries : list (string * nat))
  (alias name : string) (subcmd : nat) :
  In (alias, (name, subcmd)) (alias_declarations h entries) -> In (name, subcmd) entries.
Proof.
  unfold alias_declarations. rewrite in_flat_map. intros ([name' r] & He & Hd).
  simpl in Hd. destruct (h !! r) as [object|]; [|contradiction].
  destruct (Cmd.named object) as [n|]; [|contradiction].
  apply in_map_iff in Hd. destruct Hd as (a & [= _ <- <-] & _). exact He.
Qed.

(** C9: in a command that its constructor has built from sub-commands,
    every sub-command is found under its name; an alias that is neither
    a name of the base commands nor an alias entered before it leads to
    the very object that the name of its sub-command leads to (so that
    whatever the heap holds for it is seen through both keys); an alias
    that is taken keeps the binding it had - the earlier one - and a
    warning about it is on the console. *)
Theorem alias_shares_the_node (entries : list (string * nat)) (h h' : gmap nat Command)
  (m : JS.Map nat) (warnings : list string) :
  List.NoDup (map fst entries) ->
  Construct.subcommands_new (Some entries) h = Return ((m, warnings), h') ->
  (forall name subcmd, In (name, subcmd) entries -> JS.get m name = Some subcmd)
  /\ forall before alias name subcmd after,
       alias_declarations h entries = (before ++ (alias, (name, subcmd)) :: after)%list ->
       match JS.get (entries ++ map binding before)%list alias with
       | None =>
           JS.get m alias = Some subcmd /\ JS.get m name = Some subcmd
           /\ forall heap : gmap nat Command,
                (JS.get m alias ≫= fun r => heap !! r)
                = (JS.get m name ≫= fun r => heap !! r)
       | Some earlier =>
           JS.get m alias = Some earlier
           /\ (In (Construct.warn_base alias name) warnings
               \/ In (Construct.warn_duplicate alias name) warnings)
       end.
Proof.
  intros Hnd H. unfold Construct.subcommands_new in H.
  apply name_and_alias_enter in H.
  set (base := map fst entries) in *.
  set (decls := alias_declarations h entries) in *.
  assert (Hc : covers base (Construct.set_base entries, [])).
  { intros a Ha. simpl. rewrite get_set_base by exact Hnd. apply get_in. exact Ha. }
  assert (Hget : forall k, JS.get m k = JS.get (entries ++ map binding decls)%list k).
  { intros k. change m with (fst (m, warnings)). rewrite H.
    rewrite enter_get by exact Hc. simpl. rewrite !get_app, get_set_base by exact Hnd.
    reflexivity. }
  assert (Hname : forall name subcmd, In (name, subcmd) entries ->
                                      JS.get m name = Some subcmd).
  { intros name subcmd Hin. rewrite Hget, get_app.
    now rewrite (get_nodup_in entries name subcmd Hnd Hin). }
  split; [exact Hname|].
  intros before alias name subcmd after Hsplit.
  assert (Hin : In (name, subcmd) entries).
  { apply (alias_declarations_in h entries alias). fold decls. rewrite Hsplit.
    apply in_or_app. right. now left. }
  assert (Halias : JS.get m alias
                   = match JS.get (entries ++ map binding before)%list alias with
                     | Some earlier => Some earlier
                     | None => Some subcmd
                     end).
  { rewrite Hget, Hsplit, map_app, app_assoc, get_app. simpl.
    now rewrite String.eqb_refl. }
  destruct (JS.get (entries ++ map binding before)%list alias) as [earlier|] eqn:E.
  - split; [exact Halias|].
    change warnings with (snd (m, warnings)). rewrite H.
    apply (enter_warns base decls _ Hc before (alias, (name, subcmd)) after Hsplit).
    simpl. rewrite get_app, get_set_base by exact Hnd.
    rewrite get_app in E. rewrite E. discriminate.
  - split; [exact Halias|]. split; [exact (Hname name subcmd Hin)|].
    intros heap. now rewrite Halias, (Hname name subcmd Hin).
Qed.

Lemma shelf_built :
  Construct.subcommands_new (Some Sample.shelf_entries) Sample.shelf
  = Return ((Sample.shelf_table, Sample.shelf_warnings), Sample.shelf_after).
Proof. vm_compute. reflexivity. Qed.

Lemma shelf_entries_nodup : List.NoDup (map fst Sample.shelf_entries).
Proof.
  simpl. constructor; [simpl; intros [H|[]]; discriminate H|].
  constructor; [simpl; tauto|constructor].
Qed.

Lemma alias_shares_the_node_witness :
  List.NoDup (map fst Sample.shelf_entries)
  /\ Construct.subcommands_new (Some Sample.shelf_entries) Sample.shelf
     = Return ((Sample.shelf_table, Sample.shelf_warnings), Sample.shelf_after)
  /\ (JS.get Sample.shelf_table "p" = Some 1%nat
      /\ JS.get Sample.shelf_table "ping" = Some 1%nat)
  /\ (JS.get Sample.shelf_table "ls" = Some 1%nat
      /\ (In (Construct.warn_base "ls" "list") Sample.shelf_warnings
          \/ In (Construct.warn_duplicate "ls" "list") Sample.shelf_warnings)).
Proof.
  split; [exact shelf_entries_nodup|]. split; [exact shelf_built|].
  destruct (alias_shares_the_node Sample.shelf_entries Sample.shelf Sample.shelf_after
              Sample.shelf_table Sample.shelf_warnings shelf_entries_nodup shelf_built)
    as [_ H].
  split.
  - destruct (H [] "p" "ping" 1%nat
                [("ls", ("ping", 1%nat)); ("ls", ("list", 2%nat));
                 ("list", ("list", 2%nat)); ("ping", ("list", 2%nat))] eq_refl)
      as (Ha & Hn & _).
    split; [exact Ha|exact Hn].
  - exact (H [("p", ("ping", 1%nat)); ("ls", ("ping", 1%nat))] "ls" "list" 2%nat
             [("list", ("list", 2%nat)); ("ping", ("list", 2%nat))] eq_refl).
Defined.

(** ** The introspection, called twice *)




(** * Further properties *)

(** ** The patterns *)

Lemma strip_prefix_spec (p s r : string) :
  Patterns.strip_prefix p s = Some r <-> s = p ++ r.
Proof.
  revert s. induction p as [|a p IH]; intros s; simpl.
  - split; [now intros [= ->]|now intros ->].
  - destruct s as [|b s]; [split; discriminate|].
    destruct (Ascii.eqb_spec a b) as [->|Hne].
    + rewrite IH. split; [now intros ->|now intros [= ->]].
    + split; [discriminate|intros [= -> _]; contradiction].
Qed.

Lemma span_word_spec (s : string) :
  s = fst (Patterns.span_word s) ++ snd (Patterns.span_word s)
  /\ Patterns.all_word (fst (Patterns.span_word s)) = true
  /\ match snd (Patterns.span_word s) with
     | EmptyString => True
     | String c _ => Patterns.is_word c = false
     end.
Proof.
  induction s as [|c s IH]; simpl; [auto|].
  destruct (Patterns.is_word c) eqn:Hc.
  - destruct (Patterns.span_word s) as [w r]. simpl in *.
    destruct IH as (-> & Hw & Hr). rewrite Hc, Hw. auto.
  - simpl. rewrite Hc. auto.
Qed.

Lemma span_word_app (w r : string) :
  Patterns.all_word w = true ->
  match r with EmptyString => True | String c _ => Patterns.is_word c = false end ->
  Patterns.span_word (w ++ r) = (w, r).
Proof.
  intros Hw Hr. induction w as [|c w IH]; simpl in *.
  - destruct r as [|c r]; [reflexivity|]. simpl. now rewrite Hr.
  - apply andb_true_iff in Hw. destruct Hw as [Hc Hw]. rewrite Hc, IH by exact Hw.
    reflexivity.
Qed.

(** X1: the mention patterns accept exactly the tokens made of an ID of
    at least 26 word characters between their delimiters, and capture
    that ID: [<#ID>] for a channel, [<@ID>] or [<ID>] for a user, the
    bare ID for an ID. *)
Theorem mention_patterns_capture_the_id (s w : string) :
  (Patterns.channel s = Some w <->
   s = "<#" ++ w ++ ">" /\ Patterns.all_word w = true /\ (26 <= String.length w)%nat)
  /\ (Patterns.user s = Some w <->
      (s = "<@" ++ w ++ ">" \/ s = "<" ++ w ++ ">")
      /\ Patterns.all_word w = true /\ (26 <= String.length w)%nat)
  /\ (Patterns.id s = Some w <->
      s = w /\ Patterns.all_word w = true /\ (26 <= String.length w)%nat).
Proof.
  split; [|split].
  - unfold Patterns.channel. split.
    + destruct (Patterns.strip_prefix "<#" s) as [r|] eqn:Hp; [|discriminate].
      apply strip_prefix_spec in Hp. subst s.
      destruct (span_word_spec r) as (Hr & Hw & _).
      destruct (Patterns.span_word r) as [w' r']. simpl in *.
      destruct (Patterns.at_least 26 w' && String.eqb r' ">") eqn:E; [|discriminate].
      intros [= <-]. apply andb_true_iff in E. destruct E as [Hl Hgt].
      apply String.eqb_eq in Hgt. subst r'. unfold Patterns.at_least in Hl.
      apply Nat.leb_le in Hl. rewrite Hr. auto.
    + intros (-> & Hw & Hl).
      change (Patterns.strip_prefix "<#" ("<#" ++ w ++ ">")) with (Some (w ++ ">")).
      cbv beta iota. rewrite span_word_app by (auto; reflexivity).
      unfold Patterns.at_least. apply Nat.leb_le in Hl. now rewrite Hl.
  - unfold Patterns.user. split.
    + destruct (Patterns.strip_prefix "<" s) as [r|] eqn:Hp; [|discriminate].
      apply strip_prefix_spec in Hp. subst s.
      destruct (span_word_spec (Patterns.strip_optional "@" r)) as (Hr & Hw & _).
      destruct (Patterns.span_word (Patterns.strip_optional "@" r)) as [w' r'].
      simpl in *.
      destruct (Patterns.at_least 26 w' && String.eqb r' ">") eqn:E; [|discriminate].
      intros [= <-]. apply andb_true_iff in E. destruct E as [Hl Hgt].
      apply String.eqb_eq in Hgt. subst r'. unfold Patterns.at_least in Hl.
      apply Nat.leb_le in Hl. split; [|auto].
      unfold Patterns.strip_optional in Hr.
      destruct (Patterns.strip_prefix "@" r) as [r0|] eqn:Hat.
      * apply strip_prefix_spec in Hat. subst r r0. now left.
      * subst r. now right.
    + intros (Hs & Hw & Hl). apply Nat.leb_le in Hl.
      destruct Hs as [-> | ->].
      * change (Patterns.strip_prefix "<" ("<@" ++ w ++ ">")) with (Some ("@" ++ w ++ ">")).
        cbv beta iota.
        change (Patterns.strip_optional "@" ("@" ++ w ++ ">")) with (w ++ ">").
        rewrite span_word_app by (auto; reflexivity).
        unfold Patterns.at_least. now rewrite Hl.
      * change (Patterns.strip_prefix "<" ("<" ++ w ++ ">")) with (Some (w ++ ">")).
        assert (Hopt : Patterns.strip_optional "@" (w ++ ">") = w ++ ">").
        { unfold Patterns.strip_optional. destruct w as [|c w]; [reflexivity|].
          simpl in Hw. apply andb_true_iff in Hw. destruct Hw as [Hc _].
          change (Patterns.strip_prefix "@" (String c w ++ ">"))
            with (if Ascii.eqb "@" c then Some (w ++ ">") else None).
          destruct (Ascii.eqb_spec "@" c) as [<-|]; [discriminate Hc|reflexivity]. }
        cbv beta iota. rewrite Hopt, span_word_app by (auto; reflexivity).
        unfold Patterns.at_least. now rewrite Hl.
  - unfold Patterns.id, Patterns.at_least. split.
    + destruct (Patterns.all_word s && (26 <=? String.length s)%nat) eqn:E; [|discriminate].
      intros [= <-]. apply andb_true_iff in E. destruct E as [Hw Hl].
      apply Nat.leb_le in Hl. auto.
    + intros (-> & Hw & Hl). apply Nat.leb_le in Hl. now rewrite Hw, Hl.
Qed.

Lemma all_word_strip_prefix (p s r : string) :
  Patterns.all_word s = true -> Patterns.strip_prefix p s = Some r ->
  Patterns.all_word r = true.
Proof.
  revert s. induction p as [|a p IH]; intros s Hs; simpl.
  - now intros [= <-].
  - destruct s as [|b s]; [discriminate|]. simpl in Hs.
    apply andb_true_iff in Hs. destruct Hs as [_ Hs].
    destruct (Ascii.eqb a b); [apply IH; exact Hs|discriminate].
Qed.

Lemma all_word_no_colon (s : string) :
  Patterns.all_word s = true -> Patterns.strip_prefix "://" s = None.
Proof.
  destruct s as [|c s]; [reflexivity|]. intros Hs. simpl in Hs.
  apply andb_true_iff in Hs. destruct Hs as [Hc _].
  change (Patterns.strip_prefix "://" (String c s))
    with (if Ascii.eqb ":" c then Patterns.strip_prefix "//" s else None).
  destruct (Ascii.eqb_spec ":" c) as [<-|]; [discriminate Hc|reflexivity].
Qed.

Lemma all_word_not_link (s : string) :
  Patterns.all_word s = true -> Patterns.messageLink s = None.
Proof.
  intros Hs. unfold Patterns.messageLink.
  destruct (Patterns.strip_prefix "http" s) as [r0|] eqn:H0; [|reflexivity].
  pose proof (all_word_strip_prefix _ _ _ Hs H0) as Hr0.
  assert (Hr1 : Patterns.all_word (Patterns.strip_optional "s" r0) = true).
  { unfold Patterns.strip_optional.
    destruct (Patterns.strip_prefix "s" r0) eqn:H1; [|exact Hr0].
    exact (all_word_strip_prefix _ _ _ Hr0 H1). }
  cbn [mbind option_bind]. now rewrite (all_word_no_colon _ Hr1).
Qed.

(** X2: a token fits at most one of the four patterns of the dispatch
    (channel mention, message link, user mention, bare ID), so the order
    in which the typed branches try them never decides between two
    patterns. *)
Theorem patterns_are_exclusive (s : string) :
  (Patterns.test (Patterns.channel s) = true ->
   Patterns.messageLink s = None /\ Patterns.user s = None /\ Patterns.id s = None)
  /\ (Patterns.test (Patterns.messageLink s) = true ->
      Patterns.user s = None /\ Patterns.id s = None)
  /\ (Patterns.test (Patterns.user s) = true -> Patterns.id s = None).
Proof.
  split; [|split].
  - unfold Patterns.channel.
    destruct (Patterns.strip_prefix "<#" s) as [r|] eqn:Hp; [|discriminate].
    apply strip_prefix_spec in Hp. subst s. intros _.
    split; [reflexivity|]. split; reflexivity.
  - intros Hlink.
    assert (Hh : exists r, s = "http" ++ r).
    { unfold Patterns.messageLink in Hlink.
      destruct (Patterns.strip_prefix "http" s) as [r|] eqn:Hp; [|discriminate].
      apply strip_prefix_spec in Hp. eauto. }
    destruct Hh as [r ->]. split; [reflexivity|].
    destruct (Patterns.id ("http" ++ r)) eqn:Hid; [|reflexivity].
    unfold Patterns.id in Hid.
    destruct (Patterns.all_word ("http" ++ r)) eqn:Hw; [|discriminate].
    rewrite (all_word_not_link _ Hw) in Hlink. discriminate.
  - unfold Patterns.user.
    destruct (Patterns.strip_prefix "<" s) as [r|] eqn:Hp; [|discriminate].
    apply strip_prefix_spec in Hp. subst s. intros _. reflexivity.
Qed.

Lemma patterns_are_exclusive_witness :
  Patterns.test (Patterns.channel Sample.mention) = true
  /\ Patterns.messageLink Sample.mention = None
  /\ Patterns.user Sample.mention = None
  /\ Patterns.id Sample.mention = None.
Proof.
  split; [reflexivity|].
  exact (proj1 (patterns_are_exclusive Sample.mention) eq_refl).
Defined.

(** ** The constructors and the names *)

(** X3: the name of a [NamedCommand] is set once: reading it before it
    is set fails, setting it makes it readable and keeps the aliases,
    and setting it again fails whatever the value. *)
Theorem name_is_set_once (c : Command) (n : NamedPart) (value : string) :
  Cmd.named c = Some n ->
  originalCommandName n = None ->
  Cmd.name c = Throw (Error "originalCommandName must be set before accessing it!")
  /\ Cmd.isNameSet c = false
  /\ exists n',
       Cmd.set_name n value = Return n'
       /\ Cmd.name (Cmd.with_named (Some n') c) = Return (Val value)
       /\ Cmd.isNameSet (Cmd.with_named (Some n') c) = true
       /\ aliases n' = aliases n
       /\ forall other, exists e, Cmd.set_name n' other = Throw e.
Proof.
  intros Hn Ho. unfold Cmd.name, Cmd.isNameSet, Cmd.set_name. rewrite Hn, Ho.
  split; [reflexivity|]. split; [reflexivity|].
  exists (mkNamed (aliases n) (Some value)). rewrite named_with_named. simpl.
  repeat apply conj; try reflexivity. intros other. eauto.
Qed.

Lemma name_is_set_once_witness :
  Cmd.named (Sample.unnamed_leaf ["p"] (RunString "pong")) = Some (mkNamed ["p"] None)
  /\ originalCommandName (mkNamed ["p"] None) = None
  /\ Cmd.isNameSet (Sample.unnamed_leaf ["p"] (RunString "pong")) = false.
Proof.
  split; [reflexivity|]. split; [reflexivity|].
  exact (proj1 (proj2 (name_is_set_once (Sample.unnamed_leaf ["p"] (RunString "pong"))
                         (mkNamed ["p"] None) "ping" eq_refl eq_refl))).
Defined.

(** *** When the constructor succeeds *)

Lemma fresh_insert_ne (h : gmap nat Command) (r r0 : nat) (o : Command) :
  r0 <> r -> fresh (<[r0 := o]> h) r <-> fresh h r.
Proof.
  intros Hne. unfold fresh. now rewrite lookup_insert_ne by exact Hne.
Qed.

Lemma not_fresh_named (h : gmap nat Command) (r : nat) (o : Command) (n : NamedPart)
  (name : string) :
  ~ fresh (<[r := Cmd.with_named (Some (mkNamed (aliases n) (Some name))) o]> h) r.
Proof.
  intros (o' & n' & Hl & Hn & Ho). rewrite lookup_insert_eq in Hl.
  injection Hl as <-. rewrite named_with_named in Hn. injection Hn as <-.
  discriminate Ho.
Qed.

(** The second loop comes to its end exactly when the sub-commands are
    distinct objects, each a [NamedCommand] without a name. *)
Lemma name_and_alias_returns (base : list string) (entries : list (string * nat)) :
  forall t h,
    (exists t' h', Construct.name_and_alias base entries t h = Return (t', h'))
    <-> List.NoDup (map snd entries) /\ Forall (fun e => fresh h (snd e)) entries.
Proof.
  induction entries as [|[name r] entries IH]; intros t h.
  - simpl. split; [intros _; split; constructor|eauto].
  - cbn [Construct.name_and_alias map snd]. split.
    + intros (t' & h' & H).
      destruct (h !! r) as [o|] eqn:Hl; [|discriminate H].
      destruct (Cmd.named o) as [n|] eqn:Hn; [|discriminate H].
      unfold Cmd.set_name in H.
      destruct (originalCommandName n) eqn:Ho; cbn [bind aliases] in H; [discriminate H|].
      assert (Hret : exists t' h',
                 Construct.name_and_alias base entries
                   (Construct.set_aliases base name r (aliases n) t)
                   (<[r := Cmd.with_named (Some (mkNamed (aliases n) (Some name))) o]> h)
                 = Return (t', h')) by eauto.
      apply IH in Hret. destruct Hret as [Hnd Hfresh].
      assert (Hr : ~ In r (map snd entries)).
      { intros Hin. apply in_map_iff in Hin. destruct Hin as ([name' r'] & Heq & Hin).
        simpl in Heq. subst r'. rewrite Forall_forall in Hfresh.
        apply list_elem_of_In in Hin. apply Hfresh in Hin.
        exact (not_fresh_named h r o n name Hin). }
      split; [constructor; assumption|]. constructor.
      * exists o, n. auto.
      * rewrite Forall_forall in *. intros [name' r'] Hin. simpl.
        eapply fresh_insert_ne; [|exact (Hfresh _ Hin)].
        intros ->. apply Hr. apply list_elem_of_In in Hin.
        exact (in_map snd _ _ Hin).
    + intros [Hnd Hfresh]. inversion Hnd as [|? ? Hr Hnd']; subst.
      inversion Hfresh as [|? ? (o & n & Hl & Hn & Ho) Hfresh']; subst.
      simpl in Hl. rewrite Hl, Hn. unfold Cmd.set_name. rewrite Ho. cbn [bind aliases].
      apply IH. split; [exact Hnd'|].
      rewrite Forall_forall in *. intros [name' r'] Hin. simpl.
      apply fresh_insert_ne; [|exact (Hfresh' _ Hin)].
      intros ->. apply Hr. apply list_elem_of_In in Hin. exact (in_map snd _ _ Hin).
Qed.

(** What the second loop leaves in the heap. *)
Lemma name_and_alias_heap (base : list string) (entries : list (string * nat)) :
  forall t h t' h',
    Construct.name_and_alias base entries t h = Return (t', h') ->
    (forall name r, In (name, r) entries ->
       exists o, h !! r = Some o /\ h' !! r = Some (named_as name o))
    /\ (forall r, ~ In r (map snd entries) -> h' !! r = h !! r).
Proof.
  induction entries as [|[name r] entries IH]; intros t h t' h' H.
  - simpl in H. injection H as <- <-. split; [intros ? ? []|reflexivity].
  - assert (Hret : exists t' h',
               Construct.name_and_alias base ((name, r) :: entries) t h = Return (t', h'))
      by eauto.
    apply name_and_alias_returns in Hret. destruct Hret as [Hnd _].
    inversion Hnd as [|? ? Hr Hnd']; subst.
    cbn [Construct.name_and_alias] in H.
    destruct (h !! r) as [o|] eqn:Hl; [|discriminate H].
    destruct (Cmd.named o) as [n|] eqn:Hn; [|discriminate H].
    unfold Cmd.set_name in H.
    destruct (originalCommandName n) eqn:Ho; cbn [bind aliases] in H; [discriminate H|].
    apply IH in H. destruct H as [Hin Hout]. split.
    + intros name' r' [[= <- <-]|Hin'].
      * exists o. split; [exact Hl|]. rewrite (Hout r Hr), lookup_insert_eq.
        unfold named_as. now rewrite Hn.
      * destruct (Hin name' r' Hin') as (o' & Hl' & Hh').
        assert (Hne : r <> r').
        { intros ->. apply Hr. exact (in_map snd _ _ Hin'). }
        rewrite lookup_insert_ne in Hl' by exact Hne. eauto.
    + intros r' Hr'. simpl in Hr'. rewrite Hout by tauto.
      apply lookup_insert_ne. tauto.
Qed.

(** X4: the constructor accepts a list of sub-commands exactly when
    they are distinct objects, each a [NamedCommand] that has no name
    yet (so none comes with a [nameOverride], none is listed twice and
    none belongs to another command already); it then gives each the
    key it is listed under as its name and touches no other object. *)
Theorem constructor_names_its_subcommands (entries : list (string * nat))
  (h : gmap nat Command) :
  ((exists m warnings h',
      Construct.subcommands_new (Some entries) h = Return ((m, warnings), h'))
   <-> List.NoDup (map snd entries) /\ Forall (fun e => fresh h (snd e)) entries)
  /\ forall m warnings h',
       Construct.subcommands_new (Some entries) h = Return ((m, warnings), h') ->
       (forall name r, In (name, r) entries ->
          exists o, h !! r = Some o /\ h' !! r = Some (named_as name o)
                    /\ Cmd.name (named_as name o) = Return (Val name))
       /\ (forall r, ~ In r (map snd entries) -> h' !! r = h !! r).
Proof.
  unfold Construct.subcommands_new. split.
  - rewrite <- (name_and_alias_returns (map fst entries) entries
                  (Construct.set_base entries, []) h).
    split.
    + intros (m & w & h' & H). eauto.
    + intros ([m w] & h' & H). eauto.
  - intros m w h' H.
    assert (Hret : exists t' h',
               Construct.name_and_alias (map fst entries) entries
                 (Construct.set_base entries, []) h = Return (t', h')) by eauto.
    apply name_and_alias_returns in Hret. destruct Hret as [_ Hfresh].
    destruct (name_and_alias_heap _ _ _ _ _ _ H) as [Hin Hout].
    split; [|exact Hout].
    intros name r Hi. destruct (Hin name r Hi) as (o & Hl & Hh').
    exists o. split; [exact Hl|]. split; [exact Hh'|].
    rewrite Forall_forall in Hfresh. apply list_elem_of_In in Hi.
    destruct (Hfresh _ Hi) as (o' & n & Hl' & Hn & _). simpl in Hl'.
    rewrite Hl in Hl'. injection Hl' as <-.
    unfold named_as, Cmd.name. rewrite Hn, named_with_named. reflexivity.
Qed.

Lemma constructor_names_its_subcommands_witness :
  Construct.subcommands_new (Some Sample.shelf_entries) Sample.shelf
  = Return ((Sample.shelf_table, Sample.shelf_warnings), Sample.shelf_after)
  /\ In ("list", 2%nat) Sample.shelf_entries
  /\ exists o, Sample.shelf !! 2%nat = Some o
       /\ Sample.shelf_after !! 2%nat = Some (named_as "list" o)
       /\ Cmd.name (named_as "list" o) = Return (Val "list").
Proof.
  split; [exact shelf_built|]. split; [right; left; reflexivity|].
  exact (proj1 (proj2 (constructor_names_its_subcommands Sample.shelf_entries Sample.shelf)
                  _ _ _ shelf_built) "list" 2%nat (or_intror (or_introl eq_refl))).
Defined.

(** *** The table as a list, and what the introspection makes of it *)

Lemma set_append {V} (m : JS.Map V) (k : string) (v : V) :
  JS.get m k = None -> JS.set m k v = (m ++ [(k, v)])%list.
Proof.
  induction m as [|[k0 v0] m IH]; simpl; [reflexivity|].
  destruct (String.eqb k0 k); [discriminate|]. intros H. now rewrite IH.
Qed.

Lemma set_base_id (entries : list (string * nat)) :
  List.NoDup (map fst entries) -> Construct.set_base entries = entries.
Proof.
  unfold Construct.set_base.
  assert (H : forall m,
            List.NoDup (map fst entries) ->
            (forall k, In k (map fst entries) -> JS.get m k = None) ->
            fold_left (fun m e => JS.set m (fst e) (snd e)) entries m
            = (m ++ entries)%list).
  { induction entries as [|[k v] entries IH]; intros m Hnd Hm; simpl.
    - now rewrite app_nil_r.
    - inversion Hnd as [|? ? Hk Hnd']; subst.
      rewrite set_append by (apply Hm; now left).
      rewrite IH; [now rewrite <- app_assoc|exact Hnd'|].
      intros k' Hk'. rewrite get_app, Hm by (now right). simpl.
      destruct (String.eqb_spec k k') as [->|]; [contradiction|reflexivity]. }
  intros Hnd. now rewrite H.
Qed.

(** The loop over the aliases only adds bindings, at the end of the
    table, for aliases that are no name of the base commands. *)
Lemma enter_extends (base : list string) (decls : list (string * (string * nat))) :
  forall t, exists extra,
    fst (enter base decls t) = (fst t ++ extra)%list
    /\ Forall (fun b => ~ In (fst b) base /\ In b (map binding decls)) extra.
Proof.
  induction decls as [|d decls IH]; intros t.
  - exists []. simpl. now rewrite app_nil_r.
  - cbn [enter]. fold (step base d t).
    destruct (IH (step base d t)) as (extra & He & Hf).
    assert (Hstep : fst (step base d t) = fst t
                    \/ (fst (step base d t) = (fst t ++ [binding d])%list
                        /\ ~ In (fst d) base)).
    { unfold step. simpl. destruct (JS.includes base (fst d)) eqn:Hi; [now left|].
      unfold JS.has. destruct (JS.get (fst t) (fst d)) eqn:Hg; [now left|].
      right. simpl. split; [now apply set_append|].
      intros Hin. apply includes_In in Hin. congruence. }
    destruct Hstep as [Hs|[Hs Hd]].
    + exists extra. rewrite He, Hs. split; [reflexivity|].
      eapply Forall_impl; [exact Hf|]. intros b [? ?]. simpl. auto.
    + exists (binding d :: extra). rewrite He, Hs, <- app_assoc. split; [reflexivity|].
      constructor; [split; [exact Hd|now left]|].
      eapply Forall_impl; [exact Hf|]. intros b [? ?]. simpl. auto.
Qed.

Lemma keyed_entries_app (l1 l2 : JS.Map Command) (acc : JS.Map Node) :
  keyed_entries (l1 ++ l2)%list acc = bind (keyed_entries l1 acc) (keyed_entries l2).
Proof.
  revert acc. induction l1 as [|[k c] l1 IH]; intros acc; simpl; [reflexivity|].
  destruct (Cmd.name c); simpl; [apply IH|reflexivity].
Qed.

(** The entries filed under the name of their command are kept, in
    their order. *)
Lemma keyed_entries_keep (l : JS.Map Command) :
  forall acc,
    Forall (fun e => Cmd.name (snd e) = Return (Val (fst e))) l ->
    List.NoDup (map fst l) ->
    (forall k, In k (map fst l) -> JS.get acc k = None) ->
    keyed_entries l acc
    = Return (acc ++ map (fun e => (fst e, NodeCommand (snd e))) l)%list.
Proof.
  induction l as [|[k c] l IH]; intros acc Hf Hnd Hacc; simpl.
  - now rewrite app_nil_r.
  - inversion Hf as [|? ? Hc Hf']; subst. inversion Hnd as [|? ? Hk Hnd']; subst.
    simpl in Hc. rewrite Hc. simpl. rewrite String.eqb_refl.
    rewrite set_append by (apply Hacc; now left).
    rewrite IH; [now rewrite <- app_assoc|exact Hf'|exact Hnd'|].
    intros k' Hk'. rewrite get_app, Hacc by (now right). simpl.
    destruct (String.eqb_spec k k') as [->|]; [contradiction|reflexivity].
Qed.

(** The entries filed under another key than the name are dropped. *)
Lemma keyed_entries_skip (l : JS.Map Command) :
  forall acc,
    Forall (fun e => exists name, Cmd.name (snd e) = Return (Val name) /\ name <> fst e) l ->
    keyed_entries l acc = Return acc.
Proof.
  induction l as [|[k c] l IH]; intros acc Hf; simpl; [reflexivity|].
  inversion Hf as [|? ? (name & Hc & Hne) Hf']; subst. simpl in Hc, Hne.
  rewrite Hc. simpl.
  destruct (String.eqb_spec k name) as [->|]; [contradiction|]. apply IH. exact Hf'.
Qed.

Lemma snapshot_app (h : gmap nat Command) (m1 m2 : JS.Map nat) :
  Construct.snapshot h (m1 ++ m2)%list = (Construct.snapshot h m1 ++ Construct.snapshot h m2)%list.
Proof. unfold Construct.snapshot. apply omap_app. Qed.

Lemma snapshot_cons (h : gmap nat Command) (k : string) (r : nat) (c : Command)
  (m : JS.Map nat) :
  h !! r = Some c ->
  Construct.snapshot h ((k, r) :: m) = (k, c) :: Construct.snapshot h m.
Proof. intros Hl. unfold Construct.snapshot. simpl. now rewrite Hl. Qed.

Lemma snapshot_all (h : gmap nat Command) (P : string * Command -> Prop)
  (m : JS.Map nat) :
  (forall e, In e m -> exists c, h !! snd e = Some c /\ P (fst e, c)) ->
  map fst (Construct.snapshot h m) = map fst m /\ Forall P (Construct.snapshot h m).
Proof.
  induction m as [|[k r] m IH]; intros H; [split; constructor|].
  destruct (H (k, r) (or_introl eq_refl)) as (c & Hl & Hp). simpl in Hl.
  destruct IH as [IH1 IH2]; [intros e He; apply H; now right|].
  rewrite (snapshot_cons h k r c m Hl). simpl. rewrite IH1.
  split; [reflexivity|constructor; assumption].
Qed.

(** X5: in a command that its constructor has built, the description of
    the command lists under [keyedSubcommandInfo] the sub-commands it
    was given, each once, under its name and in the order of the
    options: the entries that the aliases add to the map are left out. *)
Theorem keyed_info_leaves_aliases_out (o : Options.t) (h h' : gmap nat Command)
  (entries : list (string * nat)) (c : Command) (m : JS.Map nat)
  (warnings : list string) (metadata : InfoMeta.t) :
  Options.subcommands o = Some entries ->
  List.NoDup (map fst entries) ->
  Construct.Command_new o h = Return (c, m, warnings, h') ->
  exists i,
    describe c metadata = Return (info i)
    /\ CommandInfo.keyedSubcommandInfo i
       = map (fun e => (fst e, NodeCommand (snd e))) (Construct.snapshot h' entries)
    /\ map fst (CommandInfo.keyedSubcommandInfo i) = map fst entries.
Proof.
  intros Ho Hnd H. unfold Construct.Command_new in H. rewrite Ho in H.
  destruct (Construct.subcommands_new (Some entries) h) as [[[m0 w0] h0]|] eqn:Hs;
    [|discriminate H].
  cbn [bind] in H. injection H as <- <- <- <-.
  destruct (proj2 (constructor_names_its_subcommands entries h) _ _ _ Hs) as [Hin _].
  pose proof Hs as Henter. unfold Construct.subcommands_new in Henter.
  apply name_and_alias_enter in Henter.
  destruct (enter_extends (map fst entries) (alias_declarations h entries)
              (Construct.set_base entries, [])) as (extra & Hext & Hextra).
  rewrite <- Henter in Hext. simpl in Hext. rewrite set_base_id in Hext by exact Hnd.
  subst m0.
  destruct (snapshot_all h0 (fun e => Cmd.name (snd e) = Return (Val (fst e))) entries)
    as [Hkeys Hnames].
  { intros [name r] He. destruct (Hin name r He) as (ob & _ & Hl & Hname). eauto. }
  destruct (snapshot_all h0
              (fun e => exists name, Cmd.name (snd e) = Return (Val name) /\ name <> fst e)
              extra) as [_ Hskip].
  { intros [alias r] He. rewrite Forall_forall in Hextra.
    apply list_elem_of_In in He. destruct (Hextra _ He) as [Hbase Hdecl].
    simpl in Hbase. apply in_map_iff in Hdecl.
    destruct Hdecl as ([alias' [name r']] & [= -> ->] & Hd).
    apply alias_declarations_in in Hd.
    destruct (Hin name r Hd) as (ob & _ & Hl & Hname).
    exists (named_as name ob). split; [exact Hl|]. exists name. split; [exact Hname|].
    simpl. intros <-. apply Hbase. exact (in_map fst _ _ Hd). }
  unfold describe. cbn [Cmd.subcommands].
  rewrite snapshot_app, keyed_entries_app.
  rewrite (keyed_entries_keep _ [] Hnames); [|now rewrite Hkeys|reflexivity].
  cbn [bind]. rewrite (keyed_entries_skip _ _ Hskip). cbn [bind app].
  eexists. split; [reflexivity|]. cbn [CommandInfo.keyedSubcommandInfo CommandInfo.of_metadata].
  split; [reflexivity|]. rewrite map_map. simpl. exact Hkeys.
Qed.

Lemma shelf_command_built :
  Construct.Command_new Sample2.shelf_options Sample.shelf
  = Return (Sample2.shelf_command, Sample.shelf_table, Sample.shelf_warnings,
            Sample.shelf_after).
Proof. vm_compute. reflexivity. Qed.

Lemma keyed_info_leaves_aliases_out_witness :
  Options.subcommands Sample2.shelf_options = Some Sample.shelf_entries
  /\ List.NoDup (map fst Sample.shelf_entries)
  /\ map fst Sample.shelf_table = ["ping"; "list"; "p"; "ls"]
  /\ exists i,
       describe Sample2.shelf_command (Sample2.info_start "shelf" []) = Return (info i)
       /\ map fst (CommandInfo.keyedSubcommandInfo i) = ["ping"; "list"].
Proof.
  split; [reflexivity|]. split; [exact shelf_entries_nodup|]. split; [reflexivity|].
  destruct (keyed_info_leaves_aliases_out Sample2.shelf_options Sample.shelf
              Sample.shelf_after Sample.shelf_entries Sample2.shelf_command
              Sample.shelf_table Sample.shelf_warnings (Sample2.info_start "shelf" [])
              eq_refl shelf_entries_nodup shelf_command_built) as (i & Hd & _ & Hk).
  exists i. split; [exact Hd|exact Hk].
Defined.

(** X6: in a command that its constructor has built, the branch for
    bare IDs is the branch of the kind that the options declare, so a
    bare ID that [execute] takes is handed to that branch; without that
    branch (or without a declared kind) no bare ID is taken. *)
Theorem bare_ids_go_to_the_declared_kind (o : Options.t) (h h' : gmap nat Command)
  (c : Command) (m : JS.Map nat) (warnings : list string) :
  Construct.Command_new o h = Return (c, m, warnings, h') ->
  Cmd.idType c = Options.id o
  /\ Cmd.id c = (Options.id o ≫= fun k => kind_branch k c)
  /\ forall param next k id,
       select c param = sel_id next k id -> kind_branch k c = Some next.
Proof.
  intros H. unfold Construct.Command_new in H.
  destruct (Construct.subcommands_new (Options.subcommands o) h) as [[[m0 w0] h0]|];
    [|discriminate H].
  cbn [bind] in H. injection H as <- <- <- <-.
  assert (Hid : Construct.id_branch o
                = Options.id o ≫= fun k =>
                    kind_branch k
                      (mkCommand (Construct.BaseCommand_new o)
                         (Construct.run_or_default (Options.run o))
                         (Construct.snapshot h0 m0) (Options.channel o) (Options.role o)
                         (Options.emote o) (Options.message o) (Options.user o)
                         (Options.guild o) (Construct.id_branch o) (Options.id o)
                         (Options.number o) (Options.any o) None)).
  { unfold Construct.id_branch. destruct (Options.id o) as [[]|]; reflexivity. }
  split; [reflexivity|]. split; [exact Hid|].
  intros param next k id Hsel.
  match type of Hsel with
  | select ?c _ = _ => pose proof (select_inv c param) as Hinv
  end.
  rewrite Hsel in Hinv.
  destruct Hinv as (Hn & Hk & _). cbn [Cmd.id Cmd.idType] in Hn, Hk.
  rewrite Hid, Hk in Hn. exact Hn.
Qed.

Lemma bare_ids_go_to_the_declared_kind_witness :
  Construct.Command_new Sample2.shelf_options Sample.shelf
  = Return (Sample2.shelf_command, Sample.shelf_table, Sample.shelf_warnings,
            Sample.shelf_after)
  /\ Cmd.id Sample2.shelf_command = Some (Sample.leaf Sample.inherits Sample.echo).
Proof.
  split; [exact shelf_command_built|].
  rewrite (proj1 (proj2 (bare_ids_go_to_the_declared_kind _ _ _ _ _ _
                           shelf_command_built))).
  reflexivity.
Defined.

(** ** More on the introspection *)

Lemma resolveInfoInternal_post (args : list string) :
  forall (this : Command) (metadata : InfoMeta.t),
    match resolveInfoInternal args this metadata with
    | (Return (error message), remaining) =>
        message = "No subcommand found by the argument list: `"
                  ++ join " " (InfoMeta.originalArgs metadata) ++ "`"
        /\ exists consumed, consumed <> [] /\ args = (consumed ++ remaining)%list
    | (Return (info i), remaining) =>
        CommandInfo.header i = InfoMeta.header metadata
        /\ CommandInfo.originalArgs i = InfoMeta.originalArgs metadata
        /\ exists consumed labels,
             args = (consumed ++ remaining)%list
             /\ CommandInfo.args i = (InfoMeta.args metadata ++ labels)%list
             /\ Forall2 mirrors consumed labels
             /\ (remaining = [] \/ last consumed = Some "<...>")
    | (Throw _, _) => True
    end.
Proof.
  induction args as [|param args IH]; intros this metadata.
  - simpl. unfold describe. destruct (keyed_entries _ _); simpl; [|exact I].
    split; [reflexivity|]. split; [reflexivity|].
    exists [], []. split; [reflexivity|]. split; [simpl; now rewrite app_nil_r|].
    split; [constructor|now left].
  - cbn [resolveInfoInternal]. unfold into.
    set (md := InfoMeta.inherit (Cmd.base this) metadata).
    assert (Hfail :
      match (Return (invalidSubcommand md), args) with
      | (Return (error message), remaining) =>
          message = "No subcommand found by the argument list: `"
                    ++ join " " (InfoMeta.originalArgs metadata) ++ "`"
          /\ exists consumed, consumed <> [] /\ param :: args = (consumed ++ remaining)%list
      | (Return (info i), remaining) => False
      | (Throw _, _) => True
      end).
    { simpl. split; [reflexivity|]. exists [param]. split; [discriminate|reflexivity]. }
    assert (Hnext : forall next label,
      mirrors param label ->
      match resolveInfoInternal args next (InfoMeta.push label md) with
      | (Return (error message), remaining) =>
          message = "No subcommand found by the argument list: `"
                    ++ join " " (InfoMeta.originalArgs metadata) ++ "`"
          /\ exists consumed, consumed <> [] /\ param :: args = (consumed ++ remaining)%list
      | (Return (info i), remaining) =>
          CommandInfo.header i = InfoMeta.header metadata
          /\ CommandInfo.originalArgs i = InfoMeta.originalArgs metadata
          /\ exists consumed labels,
               param :: args = (consumed ++ remaining)%list
               /\ CommandInfo.args i = (InfoMeta.args metadata ++ labels)%list
               /\ Forall2 mirrors consumed labels
               /\ (remaining = [] \/ last consumed = Some "<...>")
      | (Throw _, _) => True
      end).
    { intros next label Hm. specialize (IH next (InfoMeta.push label md)).
      destruct (resolveInfoInternal args next (InfoMeta.push label md))
        as [[[i|message]|e] remaining]; [| |exact I].
      - destruct IH as (Hh & Ho & consumed & labels & Ha & Ht & Hf & Hl).
        split; [exact Hh|]. split; [exact Ho|].
        exists (param :: consumed), (label :: labels).
        split; [simpl; now rewrite Ha|].
        split; [rewrite Ht; simpl; now rewrite <- app_assoc|].
        split; [constructor; assumption|].
        destruct Hl as [Hl|Hl]; [now left|right].
        destruct consumed; [discriminate Hl|exact Hl].
      - destruct IH as (Hmsg & consumed & Hne & Ha).
        split; [exact Hmsg|]. exists (param :: consumed).
        split; [discriminate|]. simpl. now rewrite Ha. }
    assert (Hsame : forall s, param = s -> mirrors param s) by (intros s ->; now left).
    repeat match goal with
    | |- context [if String.eqb param ?s then _ else _] =>
        destruct (String.eqb_spec param s)
    end;
    try match goal with
    | |- context [match ?branch with Some _ => _ | None => _ end] =>
        destruct branch;
        [apply Hnext; first [now apply Hsame | now left
                            | right; split; [assumption|eauto]]
        |destruct Hfail as [? ?]; split; assumption]
    end.
    + destruct (Cmd.any this);
        [destruct Hfail; split; assumption|apply Hnext; now apply Hsame
        |destruct Hfail; split; assumption].
    + destruct (Cmd.any this) as [|c|r];
        [destruct Hfail; split; assumption|destruct Hfail; split; assumption|].
      simpl. split; [reflexivity|]. split; [reflexivity|].
      exists [param], ["<...>"]. split; [reflexivity|]. split; [reflexivity|].
      split; [constructor; [now apply Hsame|constructor]|].
      right. subst param. reflexivity.
Qed.

(** X7: when [resolveInfo] finds no sub-command, its message quotes the
    whole list of tokens it was called with, joined by single spaces,
    however deep the token that fails is; the failing token and those
    before it are gone from the array. *)
Theorem resolveInfo_error_quotes_all_tokens (args : list string) (this : Command)
  (header message : string) :
  fst (resolveInfo args this header) = Return (error message) ->
  message = "No subcommand found by the argument list: `" ++ join " " args ++ "`"
  /\ exists consumed,
       consumed <> [] /\ args = (consumed ++ snd (resolveInfo args this header))%list.
Proof.
  unfold resolveInfo. intros H.
  pose proof (resolveInfoInternal_post args this
                {| InfoMeta.permission := 0; InfoMeta.nsfw := false;
                   InfoMeta.channelType := TextChannel; InfoMeta.header := header;
                   InfoMeta.args := []; InfoMeta.usage := EmptyString;
                   InfoMeta.originalArgs := args |}) as Hpost.
  destruct (resolveInfoInternal args this _) as [r remaining]. simpl in H. subst r.
  exact Hpost.
Qed.

(** X8: a description that [resolveInfo] returns carries the header and
    the tokens of the call; its trail has one entry per token taken off
    the array, in order, each the token itself or, for [<id>], the label
    of the kind of ID; and the array is left empty unless the last token
    taken is [<...>]. *)
Theorem resolveInfo_trail_mirrors_the_tokens (args : list string) (this : Command)
  (header : string) (i : CommandInfo.t) :
  fst (resolveInfo args this header) = Return (info i) ->
  CommandInfo.header i = header
  /\ CommandInfo.originalArgs i = args
  /\ exists consumed,
       args = (consumed ++ snd (resolveInfo args this header))%list
       /\ Forall2 mirrors consumed (CommandInfo.args i)
       /\ (snd (resolveInfo args this header) = [] \/ last consumed = Some "<...>").
Proof.
  unfold resolveInfo. intros H.
  pose proof (resolveInfoInternal_post args this
                {| InfoMeta.permission := 0; InfoMeta.nsfw := false;
                   InfoMeta.channelType := TextChannel; InfoMeta.header := header;
                   InfoMeta.args := []; InfoMeta.usage := EmptyString;
                   InfoMeta.originalArgs := args |}) as Hpost.
  destruct (resolveInfoInternal args this _) as [r remaining]. simpl in H. subst r.
  destruct Hpost as (Hh & Ho & consumed & labels & Ha & Ht & Hf & Hl).
  simpl in Ht. subst labels. simpl. eauto 10.
Qed.

Lemma resolveInfo_error_quotes_all_tokens_witness :
  fst (resolveInfo ["admin"; "now"; "please"] Sample.panel "help")
  = Return (error "No subcommand found by the argument list: `admin now please`")
  /\ "No subcommand found by the argument list: `admin now please`"
     = "No subcommand found by the argument list: `"
       ++ join " " ["admin"; "now"; "please"] ++ "`".
Proof.
  split; [reflexivity|].
  exact (proj1 (resolveInfo_error_quotes_all_tokens ["admin"; "now"; "please"]
                  Sample.panel "help"
                  "No subcommand found by the argument list: `admin now please`"
                  eq_refl)).
Defined.

Lemma resolveInfo_trail_mirrors_the_tokens_witness :
  exists i, fst (resolveInfo ["admin"] Sample.panel "help") = Return (info i)
    /\ CommandInfo.header i = "help" /\ CommandInfo.originalArgs i = ["admin"].
Proof.
  eexists. split; [reflexivity|].
  destruct (resolveInfo_trail_mirrors_the_tokens ["admin"] Sample.panel "help" _ eq_refl)
    as (Hh & Ho & _).
  split; [exact Hh|exact Ho].
Defined.

Lemma InfoMeta_usage_inherit (b : BaseCommand.t) (m : InfoMeta.t) :
  InfoMeta.usage (InfoMeta.inherit b m) = default (InfoMeta.usage m) (usage_override b).
Proof.
  unfold InfoMeta.inherit, usage_override. simpl.
  destruct (String.eqb (BaseCommand.usage b) EmptyString); reflexivity.
Qed.

Lemma default_deepest_cons {A} (field : BaseCommand.t -> option A) (b : BaseCommand.t)
  (path : list BaseCommand.t) (start : A) :
  default start (deepest field (b :: path))
  = default (default start (field b)) (deepest field path).
Proof.
  rewrite deepest_cons. destruct (deepest field path), (field b); reflexivity.
Qed.

Lemma resolveInfoInternal_usage (args : list string) :
  forall (this : Command) (metadata : InfoMeta.t) (i : CommandInfo.t),
    fst (resolveInfoInternal args this metadata) = Return (info i) ->
    exists path, info_path args this = Some path
      /\ CommandInfo.usage i
         = default (InfoMeta.usage metadata) (deepest usage_override path).
Proof.
  induction args as [|param args IH]; intros this metadata i.
  - simpl. unfold describe. destruct (keyed_entries _ _); simpl; [|discriminate].
    intros [= <-]. exists [Cmd.base this]. split; [reflexivity|].
    cbn [CommandInfo.usage CommandInfo.of_metadata].
    rewrite InfoMeta_usage_inherit. unfold deepest. simpl.
    destruct (usage_override (Cmd.base this)); reflexivity.
  - cbn [resolveInfoInternal info_path]. unfold info_next, into.
    assert (Hnext : forall next label,
      fst (resolveInfoInternal args next
             (InfoMeta.push label (InfoMeta.inherit (Cmd.base this) metadata)))
      = Return (info i) ->
      exists path, cons (Cmd.base this) <$> info_path args next = Some path
        /\ CommandInfo.usage i
           = default (InfoMeta.usage metadata) (deepest usage_override path)).
    { intros next label H. destruct (IH _ _ _ H) as (path & -> & Hr).
      exists (Cmd.base this :: path). split; [reflexivity|].
      rewrite default_deepest_cons, <- InfoMeta_usage_inherit. exact Hr. }
    repeat match goal with
    | |- context [if String.eqb param ?s then _ else _] =>
        destruct (String.eqb param s)
    end;
    try match goal with
    | |- context [match ?branch with Some _ => _ | None => _ end] =>
        destruct branch; simpl; [apply Hnext|discriminate]
    end.
    + destruct (Cmd.any this); simpl; [discriminate|apply Hnext|discriminate].
    + destruct (Cmd.any this) as [|c|r]; simpl; [discriminate|discriminate|].
      intros [= <-]. exists [Cmd.base this; rest_base r]. split; [reflexivity|].
      cbn [CommandInfo.usage CommandInfo.of_metadata].
      rewrite default_deepest_cons, <- InfoMeta_usage_inherit.
      rewrite InfoMeta_usage_inherit with (b := rest_base r).
      unfold deepest. simpl. destruct (usage_override (rest_base r)); reflexivity.
Qed.

(** X9: the usage that a description shows is that of the deepest node
    on the path to the described node that has a usage of its own, and
    the empty string when none has. *)
Theorem resolveInfo_usage_is_the_deepest (args : list string) (this : Command)
  (header : string) (i : CommandInfo.t) :
  fst (resolveInfo args this header) = Return (info i) ->
  exists path,
    info_path args this = Some path
    /\ CommandInfo.usage i = default EmptyString (deepest usage_override path).
Proof. intros H. exact (resolveInfoInternal_usage _ _ _ _ H). Qed.

Lemma resolveInfo_usage_is_the_deepest_witness :
  exists i, fst (resolveInfo ["admin"] Sample.panel "help") = Return (info i)
    /\ CommandInfo.usage i = EmptyString.
Proof.
  eexists. split; [reflexivity|].
  destruct (resolveInfo_usage_is_the_deepest ["admin"] Sample.panel "help" _ eq_refl)
    as (path & Hp & ->).
  injection Hp as <-. reflexivity.
Defined.

Lemma not_marker (param : string) :
  is_marker param = false ->
  String.eqb param "<channel>" = false /\ String.eqb param "<role>" = false
  /\ String.eqb param "<emote>" = false /\ String.eqb param "<message>" = false
  /\ String.eqb param "<user>" = false /\ String.eqb param "<id>" = false
  /\ String.eqb param "<number>" = false /\ String.eqb param "<any>" = false
  /\ String.eqb param "<...>" = false.
Proof.
  unfold is_marker, JS.includes, markers. cbn [existsb].
  rewrite !orb_false_iff. tauto.
Qed.

Section Agreement.
Context `{P : Platform}.

(** X10: along a list of names of sub-commands the two walks agree:
    [execute] ends by running the action of the node that the names
    lead to, with the names as its symbolic trail and nothing sent or
    pushed on the way; and, unless one of the names is a placeholder,
    [resolveInfo] ends by describing that same node, with the names as
    its trail and the array empty. *)
Theorem help_and_dispatch_agree_on_names (args : list string) :
  forall (this node : Command),
    named_path args this = Some node ->
    (forall st,
       execute args this st
       = run_command (Cmd.run node)
           (State.with_metadata (fun m => meta_along args this m) st)
       /\ Meta.symbolicArgs (meta_along args this (State.metadata st))
          = (Meta.symbolicArgs (State.metadata st) ++ args)%list)
    /\ (forallb (fun a => negb (is_marker a)) args = true ->
        forall metadata,
          resolveInfoInternal args this metadata
          = (describe node (info_along args this metadata), [])
          /\ InfoMeta.args (info_along args this metadata)
             = (InfoMeta.args metadata ++ args)%list).
Proof.
  induction args as [|param args IH]; intros this node Hpath.
  - simpl in Hpath. injection Hpath as <-. split.
    + intros st. split; [reflexivity|]. simpl. now rewrite app_nil_r.
    + intros _ metadata. split; [reflexivity|]. simpl. now rewrite app_nil_r.
  - simpl in Hpath.
    destruct (JS.get (Cmd.subcommands this) param) as [sub|] eqn:Hget; [|discriminate].
    destruct (IH sub node Hpath) as [IHe IHi]. split.
    + intros st.
      assert (Hsel : select this param = sel_subcommand sub)
        by (unfold select; now rewrite Hget).
      cbn [execute meta_along]. rewrite Hsel, Hget.
      destruct (IHe (State.push_symbol param
                       (State.with_metadata (Meta.inherit (Cmd.base this)) st)))
        as [-> Hsym].
      split; [reflexivity|].
      cbn [State.metadata State.push_symbol State.with_metadata] in Hsym.
      rewrite Hsym. simpl. now rewrite <- app_assoc.
    + intros Hm metadata. cbn [forallb] in Hm. apply andb_true_iff in Hm.
      destruct Hm as [Hp Hm]. apply negb_true_iff in Hp.
      destruct (not_marker param Hp) as (H1 & H2 & H3 & H4 & H5 & H6 & H7 & H8 & H9).
      cbn [resolveInfoInternal info_along].
      rewrite H1, H2, H3, H4, H5, H6, H7, H8, H9, Hget.
      destruct (IHi Hm (InfoMeta.push param
                          (InfoMeta.inherit (Cmd.base this) metadata))) as [-> Ha].
      split; [reflexivity|]. rewrite Ha. simpl. now rewrite <- app_assoc.
Qed.

End Agreement.

Lemma help_and_dispatch_agree_on_names_witness :
  named_path ["admin"] Sample.panel
  = Some (Sample.named_leaf "admin" ["sudo"] (Sample.requires 3) (RunString "done"))
  /\ forallb (fun a => negb (is_marker a)) ["admin"] = true
  /\ resolveInfoInternal ["admin"] Sample.panel (Sample2.info_start "help" ["admin"])
     = (describe (Sample.named_leaf "admin" ["sudo"] (Sample.requires 3) (RunString "done"))
          (info_along ["admin"] Sample.panel (Sample2.info_start "help" ["admin"])), []).
Proof.
  split; [reflexivity|]. split; [reflexivity|].
  exact (proj1 (proj2 (help_and_dispatch_agree_on_names (P := Sample.platform) ["admin"]
                         Sample.panel _ eq_refl) eq_refl
                  (Sample2.info_start "help" ["admin"]))).
Defined.

(** ** The effects of a call *)








Section EffectFacts.
Context `{P : Platform}.

















End EffectFacts.

(** ** More on the gate *)

Section GateMore.
Context `{P : Platform}.

(** X13: with a channel in the call context, the gate lets a call
    through exactly when the caller has the permission and the channel
    fits: a command for server text channels needs a text channel and a
    server and a member that are not [null]; a command for direct
    messages needs a direct-message channel and a server and a member
    that are [null]; any other channel type asks for nothing.  The NSFW
    flag plays no part. *)
Theorem canExecute_accepts (menu : CommandMenu.t) (metadata : Meta.t) (c : Channel) :
  CommandMenu.channel menu = Val c ->
  canExecute menu metadata = Return None <->
  (Meta.channelType metadata = TextChannel ->
   channel_type c = TextChannel
   /\ CommandMenu.server menu <> Null /\ CommandMenu.member menu <> Null)
  /\ (Meta.channelType metadata = DirectMessage ->
      channel_type c = DirectMessage
      /\ CommandMenu.server menu = Null /\ CommandMenu.member menu = Null)
  /\ hasPermission (CommandMenu.author menu) (CommandMenu.member menu)
       (Meta.permission metadata) = true.
Proof.
  intros Hc. unfold canExecute, not_in_server, not_in_dm, nsfw_refused,
    menu_channel_type. rewrite Hc.
  destruct (hasPermission _ _ _);
    destruct (Meta.channelType metadata), (channel_type c),
      (CommandMenu.server menu), (CommandMenu.member menu), (Meta.nsfw metadata);
    cbn [CHANNEL_TYPE_eqb is_null truthy negb orb andb bind];
    (split;
     [intros H; try discriminate H;
      repeat apply conj; try reflexivity; intros H'; try discriminate H';
      repeat apply conj; try reflexivity; discriminate
     |intros (H1 & H2 & H3); try discriminate H3; try reflexivity;
      first [destruct (H1 eq_refl) as (A & B & C'); congruence
            |destruct (H2 eq_refl) as (A & B & C'); congruence]]).
Qed.

End GateMore.

Lemma canExecute_accepts_witness :
  CommandMenu.channel Sample.server_menu = Val Sample.text_channel
  /\ canExecute (P := Sample.platform) Sample.server_menu (defaultMetadata "ping" [])
     = Return None.
Proof.
  split; [reflexivity|].
  apply (canExecute_accepts (P := Sample.platform) Sample.server_menu
           (defaultMetadata "ping" []) Sample.text_channel eq_refl).
  split; [intros _; repeat split; discriminate|].
  split; [discriminate|reflexivity].
Defined.

(** ** The message handler *)

Lemma split_spaces_cons (text : string) :
  exists piece pieces, Handler.split_spaces text = piece :: pieces.
Proof.
  induction text as [|c rest IH]; simpl; [eauto|].
  destruct (Ascii.eqb c " ").
  - destruct rest as [|d rest']; [eauto|]. destruct (Ascii.eqb d " "); eauto.
  - destruct (Handler.split_spaces rest); eauto.
Qed.

Lemma split_spaces_spaceless (text : string) :
  Forall (fun piece => spaceless piece = true) (Handler.split_spaces text).
Proof.
  induction text as [|c rest IH]; [repeat constructor|].
  cbn [Handler.split_spaces]. destruct (Ascii.eqb c " ") eqn:Hc.
  - destruct rest as [|d rest']; [repeat constructor|].
    destruct (Ascii.eqb d " "); [exact IH|constructor; [reflexivity|exact IH]].
  - destruct (Handler.split_spaces rest) as [|piece pieces];
      [repeat constructor; simpl; now rewrite Hc|].
    inversion IH as [|? ? Hp Hps]; subst. constructor; [|exact Hps].
    simpl. now rewrite Hc, Hp.
Qed.

Lemma join_cons_char (c : ascii) (piece : string) (pieces : list string) :
  join " " (String c piece :: pieces) = String c (join " " (piece :: pieces)).
Proof. unfold join. simpl. destruct pieces; reflexivity. Qed.

(** The join of the pieces of a text starts with a space only if the
    text does. *)
Lemma join_split_head (c : ascii) (rest : string) :
  Ascii.eqb c " " = false ->
  exists tail, join " " (Handler.split_spaces (String c rest)) = String c tail.
Proof.
  intros Hc. cbn [Handler.split_spaces]. rewrite Hc.
  destruct (Handler.split_spaces rest) as [|piece pieces]; [now exists EmptyString|].
  rewrite join_cons_char. eauto.
Qed.

Lemma split_spaces_after_space (d : ascii) (tail : string) :
  Ascii.eqb d " " = false ->
  Handler.split_spaces (String " " (String d tail))
  = EmptyString :: Handler.split_spaces (String d tail).
Proof. intros Hd. simpl. rewrite Hd. reflexivity. Qed.

Lemma split_join_split (text : string) :
  Handler.split_spaces (join " " (Handler.split_spaces text)) = Handler.split_spaces text.
Proof.
  induction text as [|c rest IH]; [reflexivity|].
  cbn [Handler.split_spaces]. destruct (Ascii.eqb c " ") eqn:Hc.
  - apply Ascii.eqb_eq in Hc. subst c.
    destruct rest as [|d rest'].
    + reflexivity.
    + destruct (Ascii.eqb d " ") eqn:Hd; [exact IH|].
      destruct (join_split_head d rest' Hd) as [tail Htail].
      destruct (split_spaces_cons (String d rest')) as (piece & pieces & Hs).
      rewrite Hs in *.
      assert (Hj : join " " (EmptyString :: piece :: pieces)
                   = String " " (join " " (piece :: pieces))) by reflexivity.
      rewrite Hj, Htail, (split_spaces_after_space d tail Hd), <- Htail, IH.
      reflexivity.
  - destruct (split_spaces_cons rest) as (piece & pieces & Hs). rewrite Hs in *.
    rewrite join_cons_char. cbn [Handler.split_spaces]. rewrite Hc, IH. reflexivity.
Qed.

Lemma split_spaceless (text : string) :
  spaceless text = true -> Handler.split_spaces text = [text].
Proof.
  induction text as [|c rest IH]; [reflexivity|]. simpl.
  intros H. apply andb_true_iff in H. destruct H as [Hc Hr].
  apply negb_true_iff in Hc. rewrite Hc, IH by exact Hr. reflexivity.
Qed.

(** X14: the handler cuts a text at its runs of spaces: there is always
    a first piece (the header), no piece has a space, a text without
    spaces is its own header without arguments, and joining the pieces
    with single spaces gives a text that is cut into the same pieces:
    only the lengths of the runs are lost. *)
Theorem split_spaces_pieces (text : string) :
  (exists header args, Handler.split_spaces text = header :: args)
  /\ Forall (fun piece => spaceless piece = true) (Handler.split_spaces text)
  /\ (spaceless text = true -> Handler.split_spaces text = [text])
  /\ Handler.split_spaces (join " " (Handler.split_spaces text))
     = Handler.split_spaces text.
Proof.
  split; [apply split_spaces_cons|]. split; [apply split_spaces_spaceless|].
  split; [apply split_spaceless|apply split_join_split].
Qed.

Lemma split_spaces_pieces_witness :
  spaceless "ping" = true
  /\ Handler.split_spaces "ping" = ["ping"]
  /\ Handler.split_spaces " say  hello   world " = [""; "say"; "hello"; "world"; ""].
Proof.
  split; [reflexivity|].
  split; [exact (proj1 (proj2 (proj2 (split_spaces_pieces "ping"))) eq_refl)|reflexivity].
Defined.

Section HandlerFacts.
Context `{P : Platform} `{C : Handler.Client}.

Lemma rules_after_cons (added : list Handler.Rule) :
  rules_after added = Handler.default_rule :: added.
Proof.
  unfold rules_after, Handler.interceptRules.
  assert (H : forall start : list Handler.Rule,
             fold_left (fun rules handler => Handler.addInterceptRule handler rules)
               added start = (start ++ added)%list).
  { induction added as [|rule added IH]; intros start; simpl.
    - now rewrite app_nil_r.
    - rewrite IH. unfold Handler.addInterceptRule. now rewrite <- app_assoc. }
  now rewrite H.
Qed.

(** X15: whatever rules were added with [addInterceptRule], and whatever
    they answer, the rule of the module comes first: a message whose
    author is a bot stops there; no rule that was added is asked,
    nothing is executed, listened to or sent, and the handler ends
    without a failure. *)
Theorem bots_are_ignored (added : list Handler.Rule)
  (listener : Handler.ExecutedCommandInfo -> option Thrown)
  (message : Handler.Incoming) (user : User) :
  Handler.author message = Val user ->
  Handler.bot user <> Null ->
  Handler.on_message (rules_after added) listener message = (Return tt, Handler.quiet).
Proof.
  intros Hauthor Hbot. rewrite rules_after_cons.
  unfold Handler.on_message. cbn [Handler.intercepted].
  unfold Handler.default_rule. rewrite Hauthor.
  destruct (Handler.bot user); try reflexivity. now elim Hbot.
Qed.

End HandlerFacts.

Lemma bots_are_ignored_witness :
  @Handler.on_message Sample.platform Sample3.robots
    (@rules_after Sample3.robots [fun _ => Throw (Error "never asked")])
    Sample3.no_listener (Sample3.from_robot "panel")
  = (Return tt, Handler.quiet).
Proof.
  apply (@bots_are_ignored Sample.platform Sample3.robots _ _ _
           {| user_id := "01GXBOT0000000000000000001" |}).
  - reflexivity.
  - discriminate.
Defined.

Section HandlerReplies.
Context `{P : Platform} `{C : Handler.Client}.

(** X16: a text that names no command.  In a direct message the author
    is told that the first piece of the text is no command or alias; in
    a server the handler says nothing, even if the text starts with the
    prefix.  In both cases nothing is executed and the listener is not
    called. *)
Theorem unknown_header (rules : list Handler.Rule)
  (listener : Handler.ExecutedCommandInfo -> option Thrown)
  (message : Handler.Incoming) (c : Channel) (line header : string)
  (args : list string) :
  Handler.intercepted rules message = Return false ->
  Handler.channel message = Val c ->
  Handler.split_spaces line = header :: args ->
  JS.get Handler.commands header = None ->
  (channel_type c = DirectMessage -> line = Handler.content message ->
   Handler.on_message rules listener message
   = (Return tt, Handler.send_to message (Handler.not_found header) Handler.quiet))
  /\ (channel_type c <> DirectMessage ->
      forall id,
        Handler.client_user = Val id ->
        Handler.is_ping id (Handler.content message) = false ->
        Patterns.strip_prefix (getPrefix (Handler.server message)) (Handler.content message)
        = Some line ->
        Handler.on_message rules listener message = (Return tt, Handler.quiet)).
Proof.
  intros Hrules Hchannel Hsplit Hget. apply conj.
  - intros Hdm ->. unfold Handler.on_message. rewrite Hrules, Hchannel, Hdm.
    cbn [CHANNEL_TYPE_eqb]. unfold Handler.run_line. now rewrite Hsplit, Hget.
  - intros Hserver id Hid Hping Hprefix.
    unfold Handler.on_message. rewrite Hrules, Hchannel.
    destruct (CHANNEL_TYPE_eqb (channel_type c) DirectMessage) eqn:Hty.
    + destruct (channel_type c); try discriminate Hty. now elim Hserver.
    + rewrite Hid, Hping, Hprefix. unfold Handler.run_line. now rewrite Hsplit, Hget.
Qed.

End HandlerReplies.

Lemma unknown_header_witness :
  @Handler.on_message Sample.platform Sample3.client
    (@Handler.interceptRules Sample3.client) Sample3.no_listener
    (Sample3.direct "hello there")
  = (Return tt,
     {| Handler.sent := [Handler.not_found "hello"]; Handler.listened := [];
        Handler.console_error := [] |})
  /\ @Handler.on_message Sample.platform Sample3.client
       (@Handler.interceptRules Sample3.client) Sample3.no_listener
       (Sample3.posted (@getPrefix Sample.platform (Val Sample.home) ++ "hello there"))
     = (Return tt, Handler.quiet).
Proof.
  split.
  - apply (proj1 (@unknown_header Sample.platform Sample3.client
                    (@Handler.interceptRules Sample3.client) Sample3.no_listener
                    (Sample3.direct "hello there") Sample.dm_channel
                    "hello there" "hello" ["there"]
                    eq_refl eq_refl eq_refl eq_refl));
      reflexivity.
  - apply (proj2 (@unknown_header Sample.platform Sample3.client
                    (@Handler.interceptRules Sample3.client) Sample3.no_listener
                    (Sample3.posted (@getPrefix Sample.platform (Val Sample.home)
                                     ++ "hello there"))
                    Sample.text_channel
                    "hello there" "hello" ["there"]
                    eq_refl eq_refl eq_refl eq_refl)
             ltac:(discriminate) "01GXBOT0000000000000000000");
      reflexivity.
Defined.

(** ** Trees for servers, called from elsewhere *)

Lemma option_all_some (f : Command -> bool) (o : option Command) (c : Command) :
  option_all f o = true -> o = Some c -> f c = true.
Proof. intros H ->. exact H. Qed.

Lemma get_some_in {V} (m : JS.Map V) (k : string) (v : V) :
  JS.get m k = Some v -> exists k', In (k', v) m.
Proof.
  induction m as [|[k0 v0] m IH]; simpl; [discriminate|].
  destruct (String.eqb k0 k).
  - intros [= ->]. eauto.
  - intros H. destruct (IH H) as [k' Hin]. eauto.
Qed.

Lemma server_only_inv (this : Command) :
  server_only this = true ->
  for_servers (Cmd.base this) = true
  /\ (forall k sub, JS.get (Cmd.subcommands this) k = Some sub -> server_only sub = true)
  /\ (forall next, Cmd.channel this = Some next -> server_only next = true)
  /\ (forall next, Cmd.message this = Some next -> server_only next = true)
  /\ (forall next, Cmd.user this = Some next -> server_only next = true)
  /\ (forall next, Cmd.id this = Some next -> server_only next = true)
  /\ (forall next, Cmd.number this = Some next -> server_only next = true)
  /\ (forall next, Cmd.any this = AnyCommandOf next -> server_only next = true)
  /\ (forall next, Cmd.any this = AnyRest next -> for_servers (rest_base next) = true).
Proof.
  destruct this as [b r subs ch ro em me us gu i ty nu an na].
  cbn [server_only Cmd.base Cmd.subcommands Cmd.channel Cmd.message Cmd.user Cmd.id
       Cmd.number Cmd.any].
  intros H. repeat (apply andb_true_iff in H; destruct H as [H ?]).
  repeat apply conj; try assumption; try (intros next ->; assumption).
  intros k sub Hget. destruct (get_some_in _ _ _ Hget) as [k' Hin].
  rewrite forallb_forall in *. match goal with Hall : forall x, In x subs -> _ |- _ =>
    exact (Hall (k', sub) Hin) end.
Qed.

Section ServerFacts.
Context `{P : Platform}.

Lemma outside_server_inherit (b : BaseCommand.t) (st : State.t) :
  for_servers b = true -> outside_server st ->
  outside_server (State.with_metadata (Meta.inherit b) st).
Proof.
  unfold for_servers, outside_server. intros Hb [Hty Hc].
  cbn [State.with_metadata State.metadata State.menu Meta.inherit Meta.channelType].
  split; [|exact Hc].
  destruct (BaseCommand.channelType b) as [[]|]; try discriminate Hb; auto.
Qed.

Lemma outside_server_push_symbol (s : string) (st : State.t) :
  outside_server st -> outside_server (State.push_symbol s st).
Proof. intros H. exact H. Qed.

Lemma outside_server_push_args (xs : list Arg) (st : State.t) :
  outside_server st -> outside_server (State.push_args xs st).
Proof. intros H. exact H. Qed.

Lemma refused_from (st st1 : State.t) (r : Result) :
  State.sent st1 = State.sent st ->
  State.console_error st1 = State.console_error st ->
  refused st1 r -> refused st r.
Proof. unfold refused. intros <- <- H. exact H. Qed.

Lemma refused_message (st : State.t) (text : string) :
  refused st (Return (Some text), st).
Proof. unfold refused. simpl. repeat split. discriminate. Qed.

Lemma refused_throw (st : State.t) (failure : Thrown) :
  refused st (Throw failure, st).
Proof. unfold refused. simpl. repeat split. discriminate. Qed.

Lemma canExecute_outside_server (st : State.t) :
  outside_server st ->
  canExecute (State.menu st) (State.metadata st) = Return (Some must_be_server).
Proof.
  intros [Hty (c & Hc & Hne)]. unfold canExecute, not_in_server, menu_channel_type.
  rewrite Hty, Hc. cbn [CHANNEL_TYPE_eqb bind].
  destruct (channel_type c); try reflexivity. now elim Hne.
Qed.

Lemma run_command_outside_server (run : Run) (st : State.t) :
  outside_server st -> run_command run st = (Return (Some must_be_server), st).
Proof.
  intros H. unfold run_command. now rewrite (canExecute_outside_server st H).
Qed.

Lemma RestCommand_execute_outside_server (this : RestCommand) (combined : string)
  (st : State.t) :
  for_servers (rest_base this) = true -> outside_server st ->
  refused st (RestCommand_execute this combined st).
Proof.
  intros Hb H. unfold RestCommand_execute.
  rewrite (canExecute_outside_server _ (outside_server_inherit _ _ Hb H)).
  cbn [rejected must_be_server truthy_string].
  eapply refused_from; [| |apply refused_message]; reflexivity.
Qed.

Ltac refuse_on IH :=
  eapply refused_from; [| |apply IH]; [reflexivity|reflexivity|eauto|assumption].

Ltac refuse_here :=
  eapply refused_from; [| |first [apply refused_message|apply refused_throw]];
  reflexivity.

Lemma execute_outside_server (args : list string) :
  forall (this : Command) (st : State.t),
    server_only this = true -> outside_server st -> refused st (execute args this st).
Proof.
  induction args as [|param args IH]; intros this st Htree Hst.
  - destruct (server_only_inv this Htree) as (Hb & _).
    cbn [execute]. rewrite run_command_outside_server
      by (apply outside_server_inherit; assumption).
    eapply refused_from; [| |apply refused_message]; reflexivity.
  - destruct (server_only_inv this Htree)
      as (Hb & Hsub & Hch & Hme & Hus & Hid & Hnu & Han & Hre).
    pose proof (outside_server_inherit _ _ Hb Hst) as Hst'.
    pose proof (select_inv this param) as Hinv.
    cbn [execute].
    set (st' := State.with_metadata (Meta.inherit (Cmd.base this)) st) in *.
    assert (Hsent : State.sent st' = State.sent st) by reflexivity.
    assert (Hcons : State.console_error st' = State.console_error st) by reflexivity.
    apply (refused_from st st' _ Hsent Hcons). clearbody st'. clear Hsent Hcons Hst.
    destruct (select this param) as [sub|next id|next c m|next id|next ty id|next|next|next|].
    + refuse_on IH.
    + destruct Hinv as [Hn _]. unfold on_channel.
      destruct (getChannelByID id); [refuse_on IH|refuse_here].
    + destruct Hinv as [Hn _]. unfold on_message.
      destruct (getMessageByID _ m); [refuse_on IH|refuse_here].
    + destruct Hinv as [Hn _]. unfold on_user.
      destruct (getUserByID id); [refuse_on IH|refuse_here].
    + destruct Hinv as (Hn & _ & _). unfold on_id. destruct ty.
      * destruct (getChannelByID id); [refuse_on IH|refuse_here].
      * cbn [State.menu State.push_symbol State.with_metadata].
        destruct (CommandMenu.server (State.menu st')) as [| |server]; try refuse_here.
        destruct (roles server) as [| |table]; try refuse_here.
        destruct (JS.get table id); [refuse_on IH|refuse_here].
      * refuse_here.
      * destruct (getMessageByID _ id); [refuse_on IH|refuse_here].
      * destruct (getUserByID id); [refuse_on IH|refuse_here].
      * destruct (getGuildByID id); [refuse_on IH|refuse_here].
    + destruct Hinv as [Hn _]. unfold on_number. refuse_on IH.
    + unfold on_any. refuse_on IH.
    + unfold on_rest.
      eapply refused_from; [| |apply RestCommand_execute_outside_server];
        [reflexivity|reflexivity|auto|].
      apply outside_server_push_args, outside_server_push_symbol. assumption.
    + unfold no_match. refuse_here.
Qed.

(** X17: a tree in which no node asks for another channel type than the
    text channel of a server runs nothing when it is called from a
    channel of another type, whatever the tokens are and wherever they
    lead: the call ends in a message for the user or in a failure, no
    handler runs and no template is sent, and nothing is written to the
    console.  With no token at all the answer is that the command must
    be executed in a server. *)
Theorem server_tree_runs_nowhere_else (args : list string) (this : Command)
  (st : State.t) :
  server_only this = true ->
  outside_server st ->
  refused st (execute args this st)
  /\ (args = [] -> fst (execute args this st) = Return (Some must_be_server)).
Proof.
  intros Htree Hst. split; [now apply execute_outside_server|].
  intros ->. destruct (server_only_inv this Htree) as (Hb & _).
  cbn [execute]. now rewrite run_command_outside_server
    by (apply outside_server_inherit; assumption).
Qed.

End ServerFacts.

Lemma dm_is_outside_server (header : string) (args : list string) :
  outside_server (Sample.start Sample.dm_menu header args).
Proof.
  split; [reflexivity|]. exists Sample.dm_channel. split; [reflexivity|discriminate].
Qed.

Lemma server_tree_runs_nowhere_else_witness :
  server_only Sample.panel = true
  /\ refused (Sample.start Sample.dm_menu "panel" ["ping"])
       (@execute Sample.platform ["ping"] Sample.panel
          (Sample.start Sample.dm_menu "panel" ["ping"]))
  /\ fst (@execute Sample.platform [] Sample.panel (Sample.start Sample.dm_menu "panel" []))
     = Return (Some must_be_server).
Proof.
  split; [reflexivity|]. split.
  - exact (proj1 (@server_tree_runs_nowhere_else Sample.platform ["ping"] Sample.panel _
                    eq_refl (dm_is_outside_server "panel" ["ping"]))).
  - exact (proj2 (@server_tree_runs_nowhere_else Sample.platform [] Sample.panel _
                    eq_refl (dm_is_outside_server "panel" [])) eq_refl).
Defined.

(** ** [lib.ts] *)

Section LibFacts.
Context `{P : Platform}.

(** X18: a message that is looked up through the ID of its channel, as
    for a message link, is found exactly when the channel can be
    fetched, is a text channel or a direct message, and has a message
    of that ID; and when the channel cannot be fetched the answer is
    the one of [getChannelByID], passed on as it is. *)
Theorem getMessageByID_by_channel_id (channelID id : string) :
  (forall m,
     getMessageByID (inr channelID) id = inl m
     <-> exists c, channels_fetch channelID = Some c /\ text_based c
                   /\ fetchMessage c id = Some m)
  /\ (channels_fetch channelID = None ->
      getMessageByID (inr channelID) id = inr (default EmptyString
                                                 (failure_text (getChannelByID channelID)))).
Proof.
  unfold getMessageByID, getChannelByID, fetchMessage_or_message, text_based. split.
  - intros m. destruct (channels_fetch channelID) as [c|].
    + destruct (channel_type c) eqn:Hty; cbn [CHANNEL_TYPE_eqb orb];
        destruct (fetchMessage c id) as [m'|] eqn:Hm; split;
        try discriminate;
        try (intros [= <-]; exists c; rewrite Hty; auto; fail);
        try (intros (c' & [= <-] & Hc & Hf); rewrite Hty in Hc; rewrite Hm in Hf;
             destruct Hc; congruence).
    + split; [discriminate|]. intros (c & Hc & _). discriminate Hc.
  - intros ->. reflexivity.
Qed.

(** X19: a lookup of [lib.ts] that fails never answers with the empty
    text: the message it returns is one that the message handler, which
    sends a result only if it is truthy, does send. *)
Theorem lookup_failures_are_told (id : string) (channel : JSOpt Channel + string) :
  forall text,
    In (Some text)
      [failure_text (getGuildByID id); failure_text (getChannelByID id);
       failure_text (getUserByID id); failure_text (getMessageByID channel id)] ->
    truthy_string text = true.
Proof.
  intros text Hin. simpl in Hin.
  unfold getGuildByID, getChannelByID, getUserByID, getMessageByID, getChannelByID,
    fetchMessage_or_message in Hin.
  destruct Hin as [H|[H|[H|[H|[]]]]].
  - destruct (servers_get id); [discriminate H|]. now injection H as <-.
  - destruct (channels_fetch id); [discriminate H|]. now injection H as <-.
  - destruct (users_fetch id); [discriminate H|]. now injection H as <-.
  - destruct channel as [[| |c]|channelID].
    + now injection H as <-.
    + now injection H as <-.
    + destruct (fetchMessage c id); [discriminate H|]. now injection H as <-.
    + destruct (channels_fetch channelID) as [c|]; [|now injection H as <-].
      destruct (_ || _); [|now injection H as <-].
      destruct (fetchMessage c id); [discriminate H|]. now injection H as <-.
Qed.

End LibFacts.

Lemma getMessageByID_by_channel_id_witness :
  @getMessageByID Sample.platform (inr "01GXNOWHERE000000000000000") "01GXMESSAGE0000000000000000"
  = inr "No channel found by the ID of `01GXNOWHERE000000000000000`!".
Proof.
  exact (proj2 (@getMessageByID_by_channel_id Sample.platform
                  "01GXNOWHERE000000000000000" "01GXMESSAGE0000000000000000") eq_refl).
Defined.

Lemma lookup_failures_are_told_witness :
  truthy_string "No user found by the ID of `nobody`!" = true.
Proof.
  apply (@lookup_failures_are_told Sample.platform "nobody" (inr "nowhere")).
  simpl. right. right. left. reflexivity.
Defined.

(** ** [interface.ts] *)

Lemma launched_snoc (calls : list Launch) (call : Launch) (placeholder : nat) :
  launched (calls ++ [call]) placeholder
  = Interface.launch (fst (fst call)) (snd (fst call)) (snd call)
      (launched calls placeholder).
Proof. unfold launched. now rewrite fold_left_app. Qed.

Lemma levels_given_snoc (calls : list Launch) (call : Launch) :
  levels_given (calls ++ [call])
  = match Interface.given (snd call) Interface.LaunchSettings.permissionLevels with
    | Some (level :: more) => Some (level :: more)
    | _ => levels_given calls
    end.
Proof.
  induction calls as [|c calls IH]; simpl.
  - destruct (Interface.given _ _) as [[|]|]; reflexivity.
  - rewrite IH. destruct (Interface.given (snd call) _) as [[|]|]; reflexivity.
Qed.

Lemma levels_given_cons (calls : list Launch) (levels : list Interface.PermissionLevel) :
  levels_given calls = Some levels -> levels <> [].
Proof.
  revert levels. induction calls as [|c calls IH]; simpl; [discriminate|].
  intros levels. destruct (levels_given calls) as [found|].
  - intros [= <-]. now apply IH.
  - destruct (Interface.given _ _) as [[|level more]|]; try discriminate.
    intros [= <-]. discriminate.
Qed.

(** X20: after any calls of [launch] the list of permission levels has
    an element: it is the list of the last call that gave a list with
    an element, and the list with the level [User] the module starts
    with if there was none.  A call that gives the empty list changes
    no level; each such call, and no other, writes the warning. *)
Theorem launch_keeps_a_level (calls : list Launch) (placeholder : nat) :
  Interface.Config.permissionLevels (launched calls placeholder) <> []
  /\ Interface.Config.permissionLevels (launched calls placeholder)
     = default (Interface.Config.permissionLevels (Interface.initial placeholder))
         (levels_given calls)
  /\ Interface.Config.console_warn (launched calls placeholder)
     = repeat Interface.levels_warning (length (List.filter without_levels calls)).
Proof.
  assert (H : Interface.Config.permissionLevels (launched calls placeholder)
              = default (Interface.Config.permissionLevels (Interface.initial placeholder))
                  (levels_given calls)
              /\ Interface.Config.console_warn (launched calls placeholder)
                 = repeat Interface.levels_warning (length (List.filter without_levels calls))).
  { induction calls as [|call calls IH] using rev_ind; [split; reflexivity|].
    destruct IH as [IHl IHw]. rewrite launched_snoc, levels_given_snoc, List.filter_app, List.length_app.
    cbn [Interface.launch Interface.Config.permissionLevels
         Interface.Config.console_warn List.filter].
    unfold without_levels. rewrite IHl, IHw.
    destruct (levels_given calls) as [found|] eqn:Hfound;
      destruct (Interface.given (snd call) _) as [[|level more]|];
      cbn [default length Nat.add]; rewrite ?Nat.add_0_r, ?Nat.add_1_r;
      try (split; reflexivity);
      split; try reflexivity; cbn [repeat]; now rewrite repeat_cons. }
  destruct H as [Hl Hw]. split; [|split; assumption].
  rewrite Hl. destruct (levels_given calls) as [found|] eqn:Hfound.
  - exact (levels_given_cons _ _ Hfound).
  - discriminate.
Qed.
